(** * poster_designer: layout and pagination engine

    A shallow embedding of [poster_designer.py].  The canvas is an
    external collaborator: the development records the commands the
    program sends to it, in order, and takes its text measurement
    ([stringWidth]), the file system test ([os.path.exists]) and the image
    reader ([ImageReader(..).getSize()]) as parameters.

    Numbers.  Python floats are read as exact rationals ([Q]); [mm] is the
    ReportLab unit 72/25.4.  Integer quantities of the source (column
    count, column index, the title font size of the shrink loop, image
    pixel sizes) are [Z].  Statements about drawn sizes and cursors are
    written with the expressions the code evaluates, in its order of
    operations; where a bound holds for rationals and not for doubles, the
    computation is also given in binary64 (module [Double]).

    Text.  A Python [str] is a [string]; the whitespace of [str.split] and
    [str.strip] is the ASCII whitespace (tab, line feed, vertical tab, form
    feed, carriage return, the separators 28..31 and the space). *)

From Stdlib Require Import List String Ascii ZArith QArith Lia Lqa Bool.
From Stdlib Require Import Floats.PrimFloat.
From Equations Require Import Equations.
Import ListNotations.

Local Open Scope string_scope.
Local Open Scope Q_scope.
Local Open Scope list_scope.

(** ** Rational comparisons as the program evaluates them *)

Definition Qlt_bool (x y : Q) : bool := negb (Qle_bool y x).

(** [min(a, b)]: the first argument unless the second is strictly smaller. *)
Definition py_min (a b : Q) : Q := if Qlt_bool b a then b else a.

(** [max(a, b)] on integers. *)
Definition py_max (a b : Z) : Z := if (a <? b)%Z then b else a.

(** [int(q)]: truncation towards zero. *)
Definition py_int (q : Q) : Z := Z.quot (Qnum q) (Zpos (Qden q)).

(** [reportlab.lib.units.mm] *)
Definition mm : Q := 360 # 127.

(** ** Strings *)

Definition isspace (c : ascii) : bool :=
  let n := nat_of_ascii c in
  ((9 <=? n)%nat && (n <=? 13)%nat) || ((28 <=? n)%nat && (n <=? 32)%nat).

Definition newline : ascii := ascii_of_nat 10.

(** [s.split(sep)] for a one-character separator: never the empty list. *)
Fixpoint split_on (sep : ascii) (s : string) : list string :=
  match s with
  | EmptyString => [EmptyString]
  | String c s' =>
      if Ascii.eqb c sep then EmptyString :: split_on sep s'
      else match split_on sep s' with
           | [] => [String c EmptyString]
           | p :: ps => String c p :: ps
           end
  end.

Fixpoint lstrip (s : string) : string :=
  match s with
  | EmptyString => EmptyString
  | String c s' => if isspace c then lstrip s' else s
  end.

Fixpoint rstrip (s : string) : string :=
  match s with
  | EmptyString => EmptyString
  | String c s' =>
      match rstrip s' with
      | EmptyString => if isspace c then EmptyString else String c EmptyString
      | r => String c r
      end
  end.

(** [s.strip()] *)
Definition strip (s : string) : string := rstrip (lstrip s).

(** [s.split()]: the maximal runs of non-whitespace characters. *)
Fixpoint split (s : string) : list string :=
  match s with
  | EmptyString => []
  | String c s' =>
      if isspace c then split s'
      else match s' with
           | EmptyString => [String c EmptyString]
           | String c' _ =>
               if isspace c' then String c EmptyString :: split s'
               else match split s' with
                    | [] => [String c EmptyString]
                    | w :: ws => String c w :: ws
                    end
           end
  end.

(** [" ".join(ws)] *)
Definition join (ws : list string) : string := String.concat " " ws.

(** ** Content model (the dataclasses) *)

(** An entry of [Section.images]: a dict read with [.get("path")] and
    [.get("caption", "")]. *)
Record ImageSpec := {
  img_path : option string;
  img_caption : string
}.

Record PosterSection := {
  sec_title : string;
  sec_body : string;
  sec_bullets : list string;
  sec_images : list ImageSpec
}.

Record Layout := {
  columns : Z;
  margins_mm : Q;
  gutter_mm : Q;
  titleband_mm : Q;
  section_title_size : Q;
  body_size : Q;
  bullet_indent_mm : Q
}.

Definition default_Layout : Layout :=
  {| columns := 3; margins_mm := 25; gutter_mm := 16; titleband_mm := 120;
     section_title_size := 44; body_size := 28; bullet_indent_mm := 8 |}.

(** [theme] is whatever the document holds under that key: [None] stands
    for a value that is not a string (JSON null). *)
Record PosterContent := {
  page_mm : Q * Q;
  title : string;
  subtitle : option string;
  authors : string;
  affiliations : option string;
  logos : list string;
  theme : option string;
  layout : Layout;
  sections : list PosterSection;
  footer : option string
}.

(** ** The canvas *)

Inductive color := white | black | whitesmoke | darkgray.

Inductive cmd :=
| setFillColor (c : color)
| setStrokeColor (c : color)
| rect (x y w h : Q) (fill stroke : Z)
| setFont (name : string) (size : Q)
| drawString (x y : Q) (text : string)
| drawRightString (x y : Q) (text : string)
| drawImage (img : string) (x y w h : Q)
| showPage
| save.

(** A canvas computation returns its value and the commands it issued. *)
Definition Canvas (A : Type) : Type := (A * list cmd)%type.

Definition ret {A} (a : A) : Canvas A := (a, []).

Definition bind {A B} (m : Canvas A) (f : A -> Canvas B) : Canvas B :=
  let r := f (fst m) in (fst r, snd m ++ snd r).

Definition emit (c : cmd) : Canvas unit := (tt, [c]).

Declare Scope canvas_scope.
Delimit Scope canvas_scope with canvas.
Notation "x <- m ;; k" := (bind m (fun x => k))
  (at level 61, m at next level, right associativity) : canvas_scope.
Notation "m ;;; k" := (bind m (fun _ => k))
  (at level 61, right associativity) : canvas_scope.

Definition is_light (th : option string) : bool :=
  match th with
  | Some s => String.eqb s "light"
  | None => false
  end.

(** Outcome of a [try] body: it ran to its end or left through
    [except Exception]. *)
Inductive attempt (A : Type) : Type :=
| Ok (a : A)
| Raised.
Arguments Ok {A} a.
Arguments Raised {A}.

(** How a loop of [_draw_section] is left: it ran out of items ([Next]) or
    the function executed [return y] ([Return]). *)
Inductive flow := Next (y : Q) | Return (y : Q).

Record cursor := {
  cur_col : Z;
  cur_x : Q;
  cur_y : Q
}.

Inductive exn := KeyError | ZeroDivisionError.

Inductive outcome := Done | Fail (e : exn).

(** The loaded JSON document, as [build_poster] reads it: [None] is an
    absent key.  The [Layout] and the [Section]s are taken as already
    built from their dictionaries. *)
Record PosterData := {
  d_layout : Layout;
  d_sections : list PosterSection;
  d_page_mm : option (Q * Q);
  d_title : option string;
  d_subtitle : option string;
  d_authors : option string;
  d_affiliations : option string;
  d_logos : option (list string);
  d_theme : option (option string);
  d_footer : option string
}.

Definition get {A} (field : option A) (default : A) : A :=
  match field with Some a => a | None => default end.

(** ** Sample collaborators and documents

    A fixed-pitch text measure (0.6 em per character), a file system and an
    image reader, and a few small documents, to run the program on. *)

Definition mono_width (text font_name : string) (font_size : Q) : Q :=
  font_size * inject_Z (Z.of_nat (String.length text)) * (6 # 10).

Definition sample_exists (path : string) : bool :=
  negb (String.eqb path "missing.png").

Definition sample_reader (path : string) : option (Z * Z) :=
  if String.eqb path "fig.png" then Some (800, 600)%Z
  else if String.eqb path "logo.png" then Some (400, 200)%Z
  else if String.eqb path "empty.png" then Some (0, 0)%Z
  else None.

Definition sample_data : PosterData :=
  {| d_layout := default_Layout; d_sections := [];
     d_page_mm := None; d_title := Some "Poster"; d_subtitle := None;
     d_authors := None; d_affiliations := None; d_logos := None;
     d_theme := None; d_footer := None |}.

(** A page 40 mm wide with the default 25 mm margins: the computed column
    width is negative. *)
Definition narrow_data : PosterData :=
  {| d_layout := default_Layout; d_sections := [];
     d_page_mm := Some (40, 1200); d_title := Some "Poster";
     d_subtitle := None; d_authors := None; d_affiliations := None;
     d_logos := None; d_theme := None; d_footer := None |}.

Definition untitled_data : PosterData :=
  {| d_layout := default_Layout; d_sections := [];
     d_page_mm := None; d_title := None; d_subtitle := None;
     d_authors := None; d_affiliations := None; d_logos := None;
     d_theme := None; d_footer := None |}.

Definition footer_data : PosterData :=
  {| d_layout := default_Layout; d_sections := [];
     d_page_mm := None; d_title := Some "Poster"; d_subtitle := None;
     d_authors := None; d_affiliations := None; d_logos := None;
     d_theme := None; d_footer := Some "Contact" |}.

Definition capital_theme_data : PosterData :=
  {| d_layout := default_Layout; d_sections := [];
     d_page_mm := None; d_title := Some "Poster"; d_subtitle := None;
     d_authors := None; d_affiliations := None; d_logos := None;
     d_theme := Some (Some "Light"); d_footer := None |}.

Definition figure_section : PosterSection :=
  {| sec_title := "Results"; sec_body := "";
     sec_bullets := [];
     sec_images := [{| img_path := Some "fig.png"; img_caption := "" |}] |}.

Definition missing_image : ImageSpec :=
  {| img_path := Some "missing.png"; img_caption := "lost" |}.

Definition text_section : PosterSection :=
  {| sec_title := "Methods"; sec_body := "ab cd";
     sec_bullets := ["ef"]; sec_images := [] |}.

Definition two_section_data : PosterData :=
  {| d_layout := default_Layout;
     d_sections := [text_section; figure_section];
     d_page_mm := None; d_title := Some "Poster"; d_subtitle := None;
     d_authors := None; d_affiliations := None;
     d_logos := Some ["logo.png"; "missing.png"; "logo.png"];
     d_theme := None; d_footer := None |}.

(** ** The image fit in double precision

    Lines 155-156 and 75-76 and the column width of lines 190-208 as Python
    evaluates them, in IEEE 754 binary64; a pixel size is passed as the
    double it is converted to. *)

#[local] Set Warnings "-inexact-float".

Module Double.

Definition mm : float := (72 / 2.54 * 0.1)%float.

Definition py_min (a b : float) : float := if (b <? a)%float then b else a.

(** [col_w], from the page width and the layout in millimetres. *)
Definition column_width (page_w_mm margins_mm gutter_mm columns : float)
    : float :=
  let W := (page_w_mm * mm)%float in
  let left := (margins_mm * mm)%float in
  let right := (W - margins_mm * mm)%float in
  let total_width := (right - left)%float in
  let gutter := (gutter_mm * mm)%float in
  ((total_width - (columns - 1) * gutter) / columns)%float.



End Double.

Local Open Scope canvas_scope.

Section Engine.

(** [c.stringWidth(text, font_name, font_size)] *)
Variable stringWidth : string -> string -> Q -> Q.
(** [os.path.exists(path)] *)
Variable path_exists : string -> bool.
(** [ImageReader(path).getSize()]; [None] when either call raises. *)
Variable ImageReader : string -> option (Z * Z).

(** *** [_split_text_to_lines] *)

(** The loop [for w in words], on the pair [(cur, lines)]. *)
Fixpoint wrap_words (font_name : string) (font_size max_width : Q)
    (words cur lines : list string) : list string * list string :=
  match words with
  | [] => (cur, lines)
  | w :: words' =>
      let test := join (cur ++ [w]) in
      if Qle_bool (stringWidth test font_name font_size) max_width
      then wrap_words font_name font_size max_width words' (cur ++ [w]) lines
      else wrap_words font_name font_size max_width words' [w]
             (lines ++ [join cur])
  end.

(** The body of [for p in paragraphs]. *)
Definition wrap_paragraph (font_name : string) (font_size max_width : Q)
    (lines : list string) (p : string) : list string :=
  match p with
  | EmptyString => lines ++ [""]
  | _ =>
      let (cur, lines') :=
        wrap_words font_name font_size max_width (split p) [] lines in
      match cur with
      | [] => lines'
      | _ => lines' ++ [join cur]
      end
  end.

Definition split_lines (font_name : string) (font_size max_width : Q)
    (text : string) : list string :=
  let paragraphs := map strip (split_on newline text) in
  fold_left (wrap_paragraph font_name font_size max_width) paragraphs [].

Definition _split_text_to_lines (text font_name : string)
    (font_size max_width : Q) : Canvas (list string) :=
  emit (setFont font_name font_size) ;;;
  ret (split_lines font_name font_size max_width text).

(** *** [_draw_title_band] *)

(** The loop [while stringWidth(title, .., font_size) > max_title_width
    and font_size > 36: font_size -= 2]. *)
Equations shrink (text : string) (max_title_width : Q) (font_size : Z) : Z
  by wf (Z.to_nat (font_size - 36)) lt :=
shrink text max_title_width font_size with Z_lt_dec 36 font_size := {
  | left _ =>
      if Qlt_bool max_title_width
           (stringWidth text "Helvetica-Bold" (inject_Z font_size))
      then shrink text max_title_width (font_size - 2)
      else font_size
  | right _ => font_size }.
Next Obligation. lia. Qed.

(** The [try] body of the logo loop; the division raises on a zero
    dimension. *)
Definition logo_try (x y : Q) (logo_path : string) : Canvas (attempt Q) :=
  match ImageReader logo_path with
  | None => ret Raised
  | Some (iw, ih) =>
      if (ih =? 0)%Z || (iw =? 0)%Z then ret Raised
      else
        let scale := py_min (70 / inject_Z ih) (2000 / inject_Z iw) in
        let draw_w := inject_Z iw * scale in
        let draw_h := inject_Z ih * scale in
        let x_cursor := x - draw_w in
        emit (drawImage logo_path x_cursor (y - draw_h) draw_w draw_h) ;;;
        ret (Ok (x_cursor - 10))
  end.

Fixpoint logos_loop (y : Q) (logo_paths : list string) (x : Q)
    : Canvas unit :=
  match logo_paths with
  | [] => ret tt
  | logo_path :: rest =>
      r <- logo_try x y logo_path ;;
      match r with
      | Ok x' => logos_loop y rest x'
      | Raised => logos_loop y rest x
      end
  end.

Definition _draw_title_band (content : PosterContent) (W H : Q) (L : Layout)
    : Canvas unit :=
  let bg := if is_light (theme content) then whitesmoke else darkgray in
  let fg := if is_light (theme content) then black else whitesmoke in
  emit (setFillColor bg) ;;; emit (setStrokeColor bg) ;;;
  emit (rect 0 (H - titleband_mm L * mm) W (titleband_mm L * mm) 1 0) ;;;
  emit (setFillColor fg) ;;;
  let max_title_width := W - 2 * margins_mm L * mm in
  let font_size := shrink (title content) max_title_width 72 in
  emit (setFont "Helvetica-Bold" (inject_Z font_size)) ;;;
  emit (drawString (margins_mm L * mm) (H - (titleband_mm L - 30) * mm)
          (title content)) ;;;
  (match subtitle content with
   | Some (String _ _ as s) =>
       emit (setFont "Helvetica" 32) ;;;
       emit (drawString (margins_mm L * mm) (H - (titleband_mm L - 55) * mm) s)
   | _ => ret tt
   end) ;;;
  emit (setFont "Helvetica" 26) ;;;
  let authors_y := H - (titleband_mm L - 85) * mm in
  emit (drawString (margins_mm L * mm) authors_y (authors content)) ;;;
  (match affiliations content with
   | Some (String _ _ as s) =>
       emit (setFont "Helvetica-Oblique" 24) ;;;
       emit (drawString (margins_mm L * mm) (authors_y - 14) s)
   | _ => ret tt
   end) ;;;
  let x := W - margins_mm L * mm in
  let y := H - (titleband_mm L - 20) * mm in
  logos_loop y (logos content) x.

(** *** [_draw_section] *)

(** [for line in body_lines] *)
Fixpoint body_loop (area_x area_y line_height : Q) (body_lines : list string)
    (y : Q) : Canvas flow :=
  match body_lines with
  | [] => ret (Next y)
  | line :: rest =>
      if Qlt_bool y area_y then ret (Return y)
      else if String.eqb line "" then
        body_loop area_x area_y line_height rest (y - line_height * (3 # 5))
      else
        emit (drawString area_x y line) ;;;
        body_loop area_x area_y line_height rest (y - line_height)
  end.

(** [for wline in wrapped[1:]] *)
Fixpoint wline_loop (x area_y line_height : Q) (wlines : list string)
    (y : Q) : Canvas flow :=
  match wlines with
  | [] => ret (Next y)
  | wline :: rest =>
      if Qlt_bool y area_y then ret (Return y)
      else
        emit (drawString x y wline) ;;;
        wline_loop x area_y line_height rest (y - line_height)
  end.

(** [for b in sec.bullets].  [wrapped[0]] is read with [hd]: the wrapper
    never returns the empty list ([split_lines_nonempty] below). *)
Fixpoint bullets_loop (L : Layout) (area_x area_y area_w line_height
    bullet_indent : Q) (bullets : list string) (y : Q) : Canvas flow :=
  match bullets with
  | [] => ret (Next y)
  | b :: rest =>
      if Qlt_bool y area_y then ret (Return y)
      else
        emit (drawString area_x y "•") ;;;
        wrapped <- _split_text_to_lines b "Helvetica" (body_size L)
                     (area_w - bullet_indent) ;;
        emit (drawString (area_x + bullet_indent) y (hd "" wrapped)) ;;;
        let y := y - line_height in
        r <- wline_loop (area_x + bullet_indent) area_y line_height
               (tl wrapped) y ;;
        match r with
        | Return y => ret (Return y)
        | Next y =>
            bullets_loop L area_x area_y area_w line_height bullet_indent
              rest y
        end
  end.

(** The [try] body of the image loop. *)
Definition image_try (L : Layout) (area_x area_y area_w : Q)
    (path caption : string) (y : Q) : Canvas (attempt flow) :=
  match ImageReader path with
  | None => ret Raised
  | Some (iw, ih) =>
      let max_w := area_w in
      if (iw =? 0)%Z || (ih =? 0)%Z then ret Raised
      else
        let scale := py_min (max_w / inject_Z iw) (4000 / inject_Z ih) in
        let draw_w := inject_Z iw * scale in
        let draw_h := inject_Z ih * scale in
        if Qlt_bool (y - draw_h - 24) area_y then ret (Ok (Return y))
        else
          emit (drawImage path area_x (y - draw_h) draw_w draw_h) ;;;
          let y := y - (draw_h + 6) in
          match caption with
          | EmptyString => ret (Ok (Next y))
          | _ =>
              emit (setFont "Helvetica-Oblique"
                      (inject_Z (py_max 16 (py_int (body_size L * (7 # 10)))))) ;;;
              emit (drawString area_x y caption) ;;;
              ret (Ok (Next (y - 18)))
          end
  end.

(** [for img_spec in sec.images], followed by the final [return y]. *)
Fixpoint images_loop (L : Layout) (area_x area_y area_w : Q)
    (images : list ImageSpec) (y : Q) : Canvas Q :=
  match images with
  | [] => ret y
  | img_spec :: rest =>
      if Qlt_bool y area_y then ret y
      else
        let caption := img_caption img_spec in
        match img_path img_spec with
        | Some (String _ _ as path) =>
            if path_exists path then
              r <- image_try L area_x area_y area_w path caption y ;;
              match r with
              | Ok (Return y) => ret y
              | Ok (Next y) => images_loop L area_x area_y area_w rest y
              | Raised => images_loop L area_x area_y area_w rest y
              end
            else images_loop L area_x area_y area_w rest y
        | _ => images_loop L area_x area_y area_w rest y
        end
  end.

Definition _draw_section (sec : PosterSection) (area_x area_y area_w
    start_y : Q) (L : Layout) : Canvas Q :=
  let y := start_y in
  emit (setFont "Helvetica-Bold" (section_title_size L)) ;;;
  emit (setFillColor black) ;;;
  emit (drawString area_x y (sec_title sec)) ;;;
  let y := y - (section_title_size L + 8) in
  body_lines <- _split_text_to_lines (sec_body sec) "Helvetica" (body_size L)
                  area_w ;;
  emit (setFont "Helvetica" (body_size L)) ;;;
  let line_height := body_size L * (5 # 4) in
  r <- body_loop area_x area_y line_height body_lines y ;;
  match r with
  | Return y => ret y
  | Next y =>
      r <- match sec_bullets sec with
           | [] => ret (Next y)
           | bullets =>
               let bullet_indent := bullet_indent_mm L * mm in
               emit (setFont "Helvetica" (body_size L)) ;;;
               bullets_loop L area_x area_y area_w line_height bullet_indent
                 bullets y
           end ;;
      match r with
      | Return y => ret y
      | Next y => images_loop L area_x area_y area_w (sec_images sec) y
      end
  end.

(** *** [build_poster] *)

(** Page background: lines 195-196 and 223-224. *)
Definition background (content : PosterContent) (W H : Q) : Canvas unit :=
  emit (setFillColor (if is_light (theme content) then white else black)) ;;;
  emit (rect 0 0 W H 1 0).

(** The body of [for sec in content.sections], on the loop variables
    [(cur_col, x, y)]. *)
Definition place_section (content : PosterContent) (W H : Q) (L : Layout)
    (left top area_y col_w gutter : Q) (st : cursor) (sec : PosterSection)
    : Canvas cursor :=
  y_after <- _draw_section sec (cur_x st) area_y col_w (cur_y st) L ;;
  if Qlt_bool y_after (area_y + 60) then
    let cur_col := (cur_col st + 1)%Z in
    cur_col <- (if (cur_col >=? columns L)%Z then
                  emit showPage ;;;
                  background content W H ;;;
                  _draw_title_band content W H L ;;;
                  ret 0%Z
                else ret cur_col) ;;
    let x := left + inject_Z cur_col * (col_w + gutter) in
    let y := top in
    y_after <- _draw_section sec x area_y col_w y L ;;
    ret {| cur_col := cur_col; cur_x := x; cur_y := y_after - 18 |}
  else
    ret {| cur_col := cur_col st; cur_x := cur_x st; cur_y := y_after - 18 |}.

Fixpoint flow_sections (content : PosterContent) (W H : Q) (L : Layout)
    (left top area_y col_w gutter : Q) (secs : list PosterSection)
    (st : cursor) : Canvas cursor :=
  match secs with
  | [] => ret st
  | sec :: rest =>
      st' <- place_section content W H L left top area_y col_w gutter st sec ;;
      flow_sections content W H L left top area_y col_w gutter rest st'
  end.

(** [col_w], line 208, for a column count that is not zero. *)
Definition column_width (L : Layout) (W : Q) : Q :=
  let left := margins_mm L * mm in
  let right := W - margins_mm L * mm in
  let total_width := right - left in
  let gutter := gutter_mm L * mm in
  (total_width - inject_Z (columns L - 1) * gutter) / inject_Z (columns L).

(** The part of [build_poster] after [c = canvas.Canvas(..)]. *)
Definition render (content : PosterContent) : Canvas outcome :=
  let L := layout content in
  let W := fst (page_mm content) * mm in
  let H := snd (page_mm content) * mm in
  background content W H ;;;
  _draw_title_band content W H L ;;;
  let left := margins_mm L * mm in
  let right := W - margins_mm L * mm in
  let bottom := margins_mm L * mm in
  let top := H - titleband_mm L * mm - margins_mm L * mm in
  let gutter := gutter_mm L * mm in
  if (columns L =? 0)%Z then ret (Fail ZeroDivisionError)
  else
    let col_w := column_width L W in
    let area_y := bottom in
    flow_sections content W H L left top area_y col_w gutter
      (sections content) {| cur_col := 0; cur_x := left; cur_y := top |} ;;;
    (match footer content with
     | Some (String _ _ as s) =>
         emit (setFont "Helvetica" 20) ;;;
         emit (setFillColor black) ;;;
         emit (drawRightString right (bottom - 10) s)
     | _ => ret tt
     end) ;;;
    emit save ;;;
    ret Done.

(** The [PosterContent(..)] of lines 177-188, for a document that has a
    title. *)
Definition content_of (data : PosterData) (title_ : string) : PosterContent :=
  {| page_mm := get (d_page_mm data) (1800, 1200);
     title := title_;
     subtitle := d_subtitle data;
     authors := get (d_authors data) "";
     affiliations := d_affiliations data;
     logos := get (d_logos data) [];
     theme := get (d_theme data) (Some "light");
     layout := d_layout data;
     sections := d_sections data;
     footer := d_footer data |}.

(** [data["title"]] raises [KeyError] on a document without the key, before
    the canvas exists. *)
Definition build_poster (data : PosterData) : Canvas outcome :=
  match d_title data with
  | None => ret (Fail KeyError)
  | Some title_ => render (content_of data title_)
  end.

(** ** Predicates used to state the properties *)

(** The title [text] fits the band at [size]. *)
Definition title_fits (text : string) (max_title_width : Q) (size : Z) : Prop :=
  stringWidth text "Helvetica-Bold" (inject_Z size) <= max_title_width.

(** No text of the trace [t] has its baseline below [area_y]. *)
Definition draws_above (area_y : Q) (t : list cmd) : Prop :=
  forall x y text, In (drawString x y text) t -> area_y <= y.

(** The drawn size [(w, h)] of an image [iw] by [ih] pixels has the same
    width-to-height ratio. *)
Definition aspect_kept (iw ih : Z) (w h : Q) : Prop :=
  w * inject_Z ih == h * inject_Z iw.

(** The commands a section flow may issue into a column [area_w] wide. *)
Definition section_cmd (area_w : Q) (c : cmd) : Prop :=
  match c with
  | setFont _ _ => True
  | drawString _ _ _ => True
  | setFillColor col => col = black
  | drawImage path _ _ w h =>
      exists iw ih, ImageReader path = Some (iw, ih) /\
        ((0 < iw)%Z -> (0 < ih)%Z ->
         aspect_kept iw ih w h /\ w <= area_w /\ h <= 4000)
  | _ => False
  end.

(** The commands the title band may issue. *)
Definition band_cmd (c : cmd) : Prop :=
  match c with
  | setFont _ _ => True
  | drawString _ _ _ => True
  | setFillColor _ => True
  | setStrokeColor _ => True
  | rect _ _ _ _ _ _ => True
  | drawImage path _ _ w h =>
      exists iw ih, ImageReader path = Some (iw, ih) /\
        ((0 < iw)%Z -> (0 < ih)%Z -> aspect_kept iw ih w h /\ h <= 70)
  | _ => False
  end.

(** A section image the loop skips: no path, an empty path, a path that
    does not exist, a reader that raises, or a zero dimension (the
    division raises). *)
Definition image_unreadable (img_spec : ImageSpec) : bool :=
  match img_path img_spec with
  | Some (String _ _ as path) =>
      negb (path_exists path)
      || match ImageReader path with
         | None => true
         | Some (iw, ih) => (iw =? 0)%Z || (ih =? 0)%Z
         end
  | _ => true
  end.

Definition logo_unreadable (logo_path : string) : bool :=
  match ImageReader logo_path with
  | None => true
  | Some (iw, ih) => (ih =? 0)%Z || (iw =? 0)%Z
  end.

Definition with_images (sec : PosterSection) (images : list ImageSpec)
    : PosterSection :=
  {| sec_title := sec_title sec; sec_body := sec_body sec;
     sec_bullets := sec_bullets sec; sec_images := images |}.

Definition with_logos (content : PosterContent) (logo_paths : list string)
    : PosterContent :=
  {| page_mm := page_mm content; title := title content;
     subtitle := subtitle content; authors := authors content;
     affiliations := affiliations content; logos := logo_paths;
     theme := theme content; layout := layout content;
     sections := sections content; footer := footer content |}.

Definition with_sections (content : PosterContent)
    (secs : list PosterSection) : PosterContent :=
  {| page_mm := page_mm content; title := title content;
     subtitle := subtitle content; authors := authors content;
     affiliations := affiliations content; logos := logos content;
     theme := theme content; layout := layout content;
     sections := secs; footer := footer content |}.

(** The transition rule of the column paginator as the specification words
    it (section 4.5): what placing [sec] from the cursor [st] leaves as the
    next cursor, and what it sends to the canvas. *)
Inductive paginator_step (content : PosterContent) (W H : Q) (L : Layout)
    (left top area_y col_w gutter : Q) (st : cursor) (sec : PosterSection)
    : cursor -> list cmd -> Prop :=
| step_placed (y1 : Q) (t1 : list cmd) :
    _draw_section sec (cur_x st) area_y col_w (cur_y st) L = (y1, t1) ->
    ~ y1 < area_y + 60 ->
    paginator_step content W H L left top area_y col_w gutter st sec
      {| cur_col := cur_col st; cur_x := cur_x st; cur_y := y1 - 18 |}
      t1
| step_next_column (y1 : Q) (t1 : list cmd) (y2 : Q) (t2 : list cmd) :
    _draw_section sec (cur_x st) area_y col_w (cur_y st) L = (y1, t1) ->
    y1 < area_y + 60 ->
    (cur_col st + 1 < columns L)%Z ->
    _draw_section sec (left + inject_Z (cur_col st + 1) * (col_w + gutter))
      area_y col_w top L = (y2, t2) ->
    paginator_step content W H L left top area_y col_w gutter st sec
      {| cur_col := cur_col st + 1;
         cur_x := left + inject_Z (cur_col st + 1) * (col_w + gutter);
         cur_y := y2 - 18 |}
      (t1 ++ t2)
| step_new_page (y1 : Q) (t1 : list cmd) (y2 : Q) (t2 : list cmd) :
    _draw_section sec (cur_x st) area_y col_w (cur_y st) L = (y1, t1) ->
    y1 < area_y + 60 ->
    (columns L <= cur_col st + 1)%Z ->
    _draw_section sec (left + inject_Z 0 * (col_w + gutter))
      area_y col_w top L = (y2, t2) ->
    paginator_step content W H L left top area_y col_w gutter st sec
      {| cur_col := 0;
         cur_x := left + inject_Z 0 * (col_w + gutter);
         cur_y := y2 - 18 |}
      (t1 ++ showPage
          :: snd (background content W H)
          ++ snd (_draw_title_band content W H L)
          ++ t2).

(** The footer block of [build_poster], lines 233-236. *)
Definition footer_cmds (content : PosterContent) (right bottom : Q)
    : list cmd :=
  match footer content with
  | Some (String _ _ as s) =>
      [setFont "Helvetica" 20; setFillColor black;
       drawRightString right (bottom - 10) s]
  | _ => []
  end.

(** How a page starts in the dark palette: black page, dark gray band,
    white smoke as the colour of the band text. *)
Definition dark_page_start (W H : Q) (L : Layout) : list cmd :=
  [setFillColor black; rect 0 0 W H 1 0;
   setFillColor darkgray; setStrokeColor darkgray;
   rect 0 (H - titleband_mm L * mm) W (titleband_mm L * mm) 1 0;
   setFillColor whitesmoke].

(** Every [showPage] of the trace [t] is directly followed by [P]. *)
Fixpoint pages_start_with (P : list cmd) (t : list cmd) : Prop :=
  match t with
  | [] => True
  | c :: t' =>
      (c = showPage -> exists rest, t' = P ++ rest) /\ pages_start_with P t'
  end.

(** Commands that stay on the current page and are not the footer. *)
Definition content_cmd (c : cmd) : Prop :=
  match c with
  | showPage | save | drawRightString _ _ _ => False
  | _ => True
  end.

(** Commands other than the footer text and the final save. *)
Definition body_cmd (c : cmd) : Prop :=
  match c with
  | save | drawRightString _ _ _ => False
  | _ => True
  end.

Definition with_theme (data : PosterData) (th : option (option string))
    : PosterData :=
  {| d_layout := d_layout data; d_sections := d_sections data;
     d_page_mm := d_page_mm data; d_title := d_title data;
     d_subtitle := d_subtitle data; d_authors := d_authors data;
     d_affiliations := d_affiliations data; d_logos := d_logos data;
     d_theme := th; d_footer := d_footer data |}.

(** Page width and height in points, as [build_poster] derives them. *)
Definition page_W (data : PosterData) : Q :=
  fst (get (d_page_mm data) (1800, 1200)) * mm.

Definition page_H (data : PosterData) : Q :=
  snd (get (d_page_mm data) (1800, 1200)) * mm.

(** The paragraphs of a text, as the wrapper takes them. *)
Definition paragraphs_of (text : string) : list string :=
  map strip (split_on newline text).

(** The words [ws] put on one line fit, unless the line is one word alone
    that is wider than [max_width]; [ws] is empty for an empty line. *)
Definition fits_or_alone (font_name : string) (font_size max_width : Q)
    (ws : list string) : Prop :=
  ws = [] \/
  stringWidth (join ws) font_name font_size <= max_width \/
  exists w, ws = [w] /\ max_width < stringWidth w font_name font_size.

(** [line] is made of consecutive whole words [ws] of one of the
    paragraphs [ps]. *)
Definition wrapped_line (font_name : string) (font_size max_width : Q)
    (ps : list string) (line : string) : Prop :=
  exists p ws a b,
    In p ps /\ split p = a ++ ws ++ b /\ line = join ws /\
    fits_or_alone font_name font_size max_width ws.

(** The bound on a line as the specification states it: the line fits, or
    it is a single word of the text which alone is too wide. *)
Definition line_bound_as_specified (font_name : string)
    (font_size max_width : Q) (text line : string) : Prop :=
  stringWidth line font_name font_size <= max_width \/
  ((exists p, In p (paragraphs_of text) /\ In line (split p)) /\
   max_width < stringWidth line font_name font_size).

(** The configuration errors of the specification, and what it asks of
    them. *)
Definition config_error (data : PosterData) : Prop :=
  d_title data = None \/
  column_width (d_layout data) (page_W data) <= 0.

Definition fails_before_drawing (data : PosterData) : Prop :=
  exists e, build_poster data = (Fail e, []).

(** The footer as the specification places it: drawn at a height above
    the bottom margin line. *)
Definition footer_above_bottom_margin (data : PosterData) (f : string)
    : Prop :=
  exists x y,
    In (drawRightString x y f) (snd (build_poster data)) /\
    margins_mm (d_layout data) * mm < y.

(** ** Predicates for the further properties *)

(** No character of [s] is a whitespace. *)
Fixpoint nospace (s : string) : bool :=
  match s with
  | EmptyString => true
  | String c s' => negb (isspace c) && nospace s'
  end.

(** A word, as [str.split] returns them: not empty, without whitespace. *)
Definition is_word (w : string) : Prop := w <> "" /\ nospace w = true.

Definition is_showPage (c : cmd) : bool :=
  match c with
  | showPage => true
  | _ => false
  end.

(** The pages a trace opens after the first one. *)
Definition count_pages (t : list cmd) : nat :=
  List.length (filter is_showPage t).

(** The cursor is on one of the columns of the page, at its left edge. *)
Definition cursor_in_grid (L : Layout) (left col_w gutter : Q) (st : cursor)
    : Prop :=
  (0 <= cur_col st < columns L)%Z /\
  cur_x st == left + inject_Z (cur_col st) * (col_w + gutter).




(** The images a trace draws, and the texts it draws, in order. *)
Definition images_drawn (t : list cmd) : list string :=
  flat_map (fun c => match c with
                     | drawImage path _ _ _ _ => [path]
                     | _ => []
                     end) t.

Definition texts_drawn (t : list cmd) : list string :=
  flat_map (fun c => match c with
                     | drawString _ _ text => [text]
                     | _ => []
                     end) t.


(** What a section flow sends to the canvas, by kind of command. *)
Definition flow_cmd (c : cmd) : Prop :=
  match c with
  | setFont _ _ => True
  | drawString _ _ _ => True
  | drawImage _ _ _ _ _ => True
  | setFillColor col => col = black
  | _ => False
  end.

(** How a page starts in the light palette. *)
Definition light_page_start (W H : Q) (L : Layout) : list cmd :=
  [setFillColor white; rect 0 0 W H 1 0;
   setFillColor whitesmoke; setStrokeColor whitesmoke;
   rect 0 (H - titleband_mm L * mm) W (titleband_mm L * mm) 1 0;
   setFillColor black].

(** The first word of the line [l2] did not fit at the end of the line
    [l1]: with it, [l1] is wider than [max_width]. *)
Definition next_word_did_not_fit (font_name : string)
    (font_size max_width : Q) (l1 l2 : string) : Prop :=
  forall w ws,
    split l2 = w :: ws ->
    max_width < stringWidth (join (split l1 ++ [w])) font_name font_size.

(** Each line of [lines] is as long as it can be: the first word of the
    next line did not fit on it. *)
Fixpoint greedy_lines (font_name : string) (font_size max_width : Q)
    (lines : list string) : Prop :=
  match lines with
  | [] => True
  | l1 :: rest =>
      match rest with
      | [] => True
      | l2 :: _ => next_word_did_not_fit font_name font_size max_width l1 l2
      end /\ greedy_lines font_name font_size max_width rest
  end.

(** The path of an image entry, empty when it has none. *)
Definition path_of (img_spec : ImageSpec) : string :=
  match img_path img_spec with
  | Some path => path
  | None => ""
  end.

(** What opening a new page sends to the canvas (specification, sections
    4.5 and 4.6): the page break; the background, a rectangle over the
    whole page in the colour of the theme; the title band, a strip across
    the top in the band colour of the theme, the title at its fitted size,
    then the subtitle, authors and affiliations and the readable logos, and
    no further page break. *)
Definition new_page_painted (content : PosterContent) (W H : Q) (L : Layout)
    (t : list cmd) : Prop :=
  exists band_rest,
    t = showPage
        :: setFillColor (if is_light (theme content) then white else black)
        :: rect 0 0 W H 1 0
        :: setFillColor (if is_light (theme content) then whitesmoke
                         else darkgray)
        :: setStrokeColor (if is_light (theme content) then whitesmoke
                           else darkgray)
        :: rect 0 (H - titleband_mm L * mm) W (titleband_mm L * mm) 1 0
        :: setFillColor (if is_light (theme content) then black
                         else whitesmoke)
        :: setFont "Helvetica-Bold"
             (inject_Z (shrink (title content) (W - 2 * margins_mm L * mm) 72))
        :: drawString (margins_mm L * mm) (H - (titleband_mm L - 30) * mm)
             (title content)
        :: band_rest /\
    texts_drawn band_rest =
      match subtitle content with
      | Some (String c s) => [String c s]
      | _ => []
      end
      ++ [authors content]
      ++ match affiliations content with
         | Some (String c s) => [String c s]
         | _ => []
         end /\
    images_drawn band_rest =
      filter (fun p => negb (logo_unreadable p)) (logos content) /\
    Forall content_cmd band_rest.

(** The transition rule of the column paginator, from the words of the
    specification (section 4.5): the section is flowed at the cursor; if
    the returned cursor is not within the 60-unit slack of the area bottom
    the next section goes on in the same column, 18 units lower; otherwise
    the column index moves forward, a new page is opened and painted and
    the index reset when it would exceed the column count, and the same
    section is flowed once more from the top of that column. *)
Inductive paginator_rule (content : PosterContent) (W H : Q) (L : Layout)
    (left top area_y col_w gutter : Q) (st : cursor) (sec : PosterSection)
    : cursor -> list cmd -> Prop :=
| rule_placed (y1 : Q) (t1 : list cmd) :
    _draw_section sec (cur_x st) area_y col_w (cur_y st) L = (y1, t1) ->
    ~ y1 < area_y + 60 ->
    paginator_rule content W H L left top area_y col_w gutter st sec
      {| cur_col := cur_col st; cur_x := cur_x st; cur_y := y1 - 18 |}
      t1
| rule_next_column (y1 : Q) (t1 : list cmd) (y2 : Q) (t2 : list cmd) :
    _draw_section sec (cur_x st) area_y col_w (cur_y st) L = (y1, t1) ->
    y1 < area_y + 60 ->
    (cur_col st + 1 < columns L)%Z ->
    _draw_section sec (left + inject_Z (cur_col st + 1) * (col_w + gutter))
      area_y col_w top L = (y2, t2) ->
    paginator_rule content W H L left top area_y col_w gutter st sec
      {| cur_col := cur_col st + 1;
         cur_x := left + inject_Z (cur_col st + 1) * (col_w + gutter);
         cur_y := y2 - 18 |}
      (t1 ++ t2)
| rule_new_page (y1 : Q) (t1 : list cmd) (y2 : Q) (t2 page : list cmd) :
    _draw_section sec (cur_x st) area_y col_w (cur_y st) L = (y1, t1) ->
    y1 < area_y + 60 ->
    (columns L <= cur_col st + 1)%Z ->
    new_page_painted content W H L page ->
    _draw_section sec (left + inject_Z 0 * (col_w + gutter))
      area_y col_w top L = (y2, t2) ->
    paginator_rule content W H L left top area_y col_w gutter st sec
      {| cur_col := 0;
         cur_x := left + inject_Z 0 * (col_w + gutter);
         cur_y := y2 - 18 |}
      (t1 ++ page ++ t2).



(** * Properties *)

(** ** Comparisons *)

Lemma Qlt_bool_iff (x y : Q) : Qlt_bool x y = true <-> x < y.
Proof.
  unfold Qlt_bool. rewrite negb_true_iff.
  split; intro H.
  - apply Qnot_le_lt. intro Hle. apply Qle_bool_iff in Hle. congruence.
  - destruct (Qle_bool y x) eqn:E; [|reflexivity].
    apply Qle_bool_iff in E. exfalso. apply (Qlt_not_le _ _ H E).
Qed.

Lemma Qlt_bool_false_iff (x y : Q) : Qlt_bool x y = false <-> y <= x.
Proof.
  unfold Qlt_bool. rewrite negb_false_iff. apply Qle_bool_iff.
Qed.

(** ** The title shrink loop *)

(** What the loop computes from any starting size: it only moves down in
    steps of 2, every size it passed was too wide, and it stops on a size
    that fits or at the floor. *)
Lemma shrink_spec (text : string) (mw : Q) (fs : Z) :
  (shrink text mw fs <= fs)%Z /\
  (35 <= fs -> 35 <= shrink text mw fs)%Z /\
  (exists k, (0 <= k)%Z /\ shrink text mw fs = (fs - 2 * k)%Z) /\
  (forall k, (0 <= k)%Z -> (shrink text mw fs < fs - 2 * k)%Z ->
             ~ title_fits text mw (fs - 2 * k)) /\
  (title_fits text mw (shrink text mw fs) \/ (shrink text mw fs <= 36)%Z).
Proof.
  funelim (shrink text mw fs).
  - destruct (Qlt_bool _ _) eqn:E.
    + destruct H as (H1 & H2 & (k & Hk & H3) & H4 & H5).
      split; [lia|]. split; [intros _; apply H2; lia|].
      split; [exists (k + 1)%Z; split; lia|].
      split; [|exact H5].
      intros j Hj Hlt.
      destruct (Z.eq_dec j 0) as [->|Hne].
      * replace (font_size - 2 * 0)%Z with font_size by lia.
        unfold title_fits. apply Qlt_bool_iff in E.
        apply Qlt_not_le; exact E.
      * replace (font_size - 2 * j)%Z
          with (font_size - 2 - 2 * (j - 1))%Z by lia.
        apply H4; lia.
    + apply Qlt_bool_false_iff in E.
      split; [lia|]. split; [lia|]. split; [exists 0%Z; lia|].
      split; [intros; lia|]. left. exact E.
  - split; [lia|]. split; [lia|]. split; [exists 0%Z; lia|].
    split; [intros; lia|]. right. lia.
Qed.

(** C4. The size the title band sets for the title is the largest of
    72, 70, ..., 36 at which the title is no wider than the page width
    minus twice the margin, or 36 when it fits at none of them; it always
    lies between 36 and 72. *)
Theorem title_size_largest_fit (content : PosterContent) (W H : Q) (L : Layout) :
  let max_title_width := W - 2 * margins_mm L * mm in
  let s := shrink (title content) max_title_width 72 in
  (exists pre post,
      snd (_draw_title_band content W H L) =
        pre ++ setFont "Helvetica-Bold" (inject_Z s)
            :: drawString (margins_mm L * mm) (H - (titleband_mm L - 30) * mm)
                 (title content)
            :: post
      /\ (forall n sz, ~ In (setFont n sz) pre)) /\
  (36 <= s <= 72)%Z /\
  (exists k, (0 <= k <= 18)%Z /\ s = (72 - 2 * k)%Z) /\
  ((title_fits (title content) max_title_width s /\
    forall k, (0 <= k <= 18)%Z -> (s < 72 - 2 * k)%Z ->
              ~ title_fits (title content) max_title_width (72 - 2 * k))
   \/
   (s = 36%Z /\
    forall k, (0 <= k <= 18)%Z ->
              ~ title_fits (title content) max_title_width (72 - 2 * k))).
Proof.
  intros mw s.
  destruct (shrink_spec (title content) mw 72)
    as (Hle & Hge & (k & Hk & Hs) & Hpassed & Hstop).
  fold s in Hle, Hge, Hs, Hpassed, Hstop.
  assert (Hlo : (36 <= s)%Z) by lia.
  split.
  { exists [setFillColor (if is_light (theme content) then whitesmoke else darkgray);
            setStrokeColor (if is_light (theme content) then whitesmoke else darkgray);
            rect 0 (H - titleband_mm L * mm) W (titleband_mm L * mm) 1 0;
            setFillColor (if is_light (theme content) then black else whitesmoke)].
    eexists. split.
    - unfold _draw_title_band. simpl. fold mw. fold s. reflexivity.
    - intros n sz [Hin|[Hin|[Hin|[Hin|[]]]]]; discriminate Hin. }
  split; [lia|].
  split; [exists k; lia|].
  destruct (Qlt_le_dec mw (stringWidth (title content) "Helvetica-Bold" (inject_Z s)))
    as [Hwide|Hfit].
  - right.
    assert (Hs36 : s = 36%Z).
    { destruct Hstop as [Hf|Hf]; [|lia].
      exfalso. apply (Qlt_not_le _ _ Hwide). exact Hf. }
    split; [exact Hs36|].
    intros j Hj.
    destruct (Z.eq_dec j 18) as [->|Hne].
    + replace (72 - 2 * 18)%Z with s by lia.
      unfold title_fits. apply Qlt_not_le. exact Hwide.
    + apply Hpassed; lia.
  - left. split; [exact Hfit|].
    intros j Hj Hlt. apply Hpassed; lia.
Qed.

(** ** The section flow and the area bottom *)

Lemma draws_above_nil (area_y : Q) : draws_above area_y [].
Proof. intros x y text []. Qed.

Lemma draws_above_app (area_y : Q) (t1 t2 : list cmd) :
  draws_above area_y t1 -> draws_above area_y t2 ->
  draws_above area_y (t1 ++ t2).
Proof.
  intros H1 H2 x y text Hin. apply in_app_or in Hin.
  destruct Hin as [Hin|Hin]; [eapply H1|eapply H2]; exact Hin.
Qed.

Lemma draws_above_cons (area_y : Q) (c : cmd) (t : list cmd) :
  (forall x y text, c = drawString x y text -> area_y <= y) ->
  draws_above area_y t -> draws_above area_y (c :: t).
Proof.
  intros Hc Ht x y text [Hin|Hin].
  - eapply Hc. exact Hin.
  - eapply Ht. exact Hin.
Qed.

Lemma body_loop_above (area_x area_y line_height : Q) (body_lines : list string) :
  forall y, draws_above area_y
              (snd (body_loop area_x area_y line_height body_lines y)).
Proof.
  induction body_lines as [|line rest IH]; intro y; simpl.
  - apply draws_above_nil.
  - destruct (Qlt_bool y area_y) eqn:E; [apply draws_above_nil|].
    apply Qlt_bool_false_iff in E.
    destruct (String.eqb line ""); [apply IH|].
    simpl. apply draws_above_cons; [|apply IH].
    intros x y' text Heq. injection Heq as _ <- _. exact E.
Qed.

Lemma wline_loop_above (x area_y line_height : Q) (wlines : list string) :
  forall y, draws_above area_y (snd (wline_loop x area_y line_height wlines y)).
Proof.
  induction wlines as [|wline rest IH]; intro y; simpl.
  - apply draws_above_nil.
  - destruct (Qlt_bool y area_y) eqn:E; [apply draws_above_nil|].
    apply Qlt_bool_false_iff in E.
    simpl. apply draws_above_cons; [|apply IH].
    intros x' y' text Heq. injection Heq as _ <- _. exact E.
Qed.

Lemma bullets_loop_above (L : Layout)
    (area_x area_y area_w line_height bullet_indent : Q) (bullets : list string) :
  forall y, draws_above area_y
              (snd (bullets_loop L area_x area_y area_w line_height
                      bullet_indent bullets y)).
Proof.
  induction bullets as [|b rest IH]; intro y; simpl.
  - apply draws_above_nil.
  - destruct (Qlt_bool y area_y) eqn:E; [apply draws_above_nil|].
    apply Qlt_bool_false_iff in E.
    simpl.
    apply draws_above_cons.
    { intros x' y' text Heq. injection Heq as _ <- _. exact E. }
    apply draws_above_cons; [intros x' y' text Heq; discriminate Heq|].
    apply draws_above_cons.
    { intros x' y' text Heq. injection Heq as _ <- _. exact E. }
    apply draws_above_app; [apply wline_loop_above|].
    destruct (fst (wline_loop _ _ _ _ _)); simpl;
      [apply IH|apply draws_above_nil].
Qed.

Lemma image_try_above (L : Layout) (area_x area_y area_w : Q)
    (path caption : string) (y : Q) :
  draws_above area_y
    (snd (image_try L area_x area_y area_w path caption y)).
Proof.
  unfold image_try.
  destruct (ImageReader path) as [[iw ih]|]; [|apply draws_above_nil].
  destruct ((iw =? 0)%Z || (ih =? 0)%Z); [apply draws_above_nil|].
  set (draw_h := inject_Z ih * _).
  destruct (Qlt_bool (y - draw_h - 24) area_y) eqn:E; [apply draws_above_nil|].
  apply Qlt_bool_false_iff in E.
  destruct caption as [|c caption']; simpl.
  - apply draws_above_cons; [intros x' y' text Heq; discriminate Heq|].
    apply draws_above_nil.
  - apply draws_above_cons; [intros x' y' text Heq; discriminate Heq|].
    apply draws_above_cons; [intros x' y' text Heq; discriminate Heq|].
    apply draws_above_cons; [|apply draws_above_nil].
    intros x' y' text Heq. injection Heq as _ <- _.
    clearbody draw_h. lra.
Qed.

Lemma images_loop_above (L : Layout) (area_x area_y area_w : Q)
    (images : list ImageSpec) :
  forall y, draws_above area_y
              (snd (images_loop L area_x area_y area_w images y)).
Proof.
  induction images as [|img_spec rest IH]; intro y; simpl.
  - apply draws_above_nil.
  - destruct (Qlt_bool y area_y); [apply draws_above_nil|].
    destruct (img_path img_spec) as [[|c p]|]; try apply IH.
    destruct (path_exists (String c p)); [|apply IH].
    simpl. apply draws_above_app; [apply image_try_above|].
    destruct (fst (image_try _ _ _ _ _ _ _)) as [[y'|y']|];
      simpl; try apply IH. apply draws_above_nil.
Qed.

(** C2. The section flow tests the cursor against the area bottom before
    every body line, every bullet (marker and first line), every further
    bullet line and every image, and returns the cursor at once, drawing
    nothing more, when it is below; an image whose height plus the 24-unit
    caption allowance would cross the bottom is not drawn and the cursor is
    returned.  The cursor at which the body loop or the bullet loop returns
    is the result of the section flow.  Hence, after the section title, no
    text is drawn with its baseline below the area bottom. *)
Theorem section_flow_checks_area_bottom (sec : PosterSection)
    (area_x area_y area_w start_y : Q) (L : Layout) :
  let line_height := body_size L * (5 # 4) in
  (forall line rest y, y < area_y ->
     body_loop area_x area_y line_height (line :: rest) y = (Return y, [])) /\
  (forall bullet_indent b rest y, y < area_y ->
     bullets_loop L area_x area_y area_w line_height bullet_indent (b :: rest) y
       = (Return y, [])) /\
  (forall x wline rest y, y < area_y ->
     wline_loop x area_y line_height (wline :: rest) y = (Return y, [])) /\
  (forall img_spec rest y, y < area_y ->
     images_loop L area_x area_y area_w (img_spec :: rest) y = (y, [])) /\
  (forall img_spec rest y path iw ih,
     img_path img_spec = Some path -> path <> "" ->
     path_exists path = true -> ImageReader path = Some (iw, ih) ->
     iw <> 0%Z -> ih <> 0%Z ->
     y - inject_Z ih * py_min (area_w / inject_Z iw) (4000 / inject_Z ih) - 24
       < area_y ->
     images_loop L area_x area_y area_w (img_spec :: rest) y = (y, [])) /\
  (forall y,
     fst (body_loop area_x area_y line_height
            (split_lines "Helvetica" (body_size L) area_w (sec_body sec))
            (start_y - (section_title_size L + 8))) = Return y ->
     fst (_draw_section sec area_x area_y area_w start_y L) = y) /\
  (forall y1 y,
     fst (body_loop area_x area_y line_height
            (split_lines "Helvetica" (body_size L) area_w (sec_body sec))
            (start_y - (section_title_size L + 8))) = Next y1 ->
     fst (bullets_loop L area_x area_y area_w line_height
            (bullet_indent_mm L * mm) (sec_bullets sec) y1) = Return y ->
     fst (_draw_section sec area_x area_y area_w start_y L) = y) /\
  (exists rest,
     snd (_draw_section sec area_x area_y area_w start_y L) =
       setFont "Helvetica-Bold" (section_title_size L)
         :: setFillColor black
         :: drawString area_x start_y (sec_title sec)
         :: rest
     /\ draws_above area_y rest).
Proof.
  intro line_height.
  split.
  { intros line rest y Hy. apply Qlt_bool_iff in Hy. simpl. now rewrite Hy. }
  split.
  { intros bi b rest y Hy. apply Qlt_bool_iff in Hy. simpl. now rewrite Hy. }
  split.
  { intros x wline rest y Hy. apply Qlt_bool_iff in Hy. simpl. now rewrite Hy. }
  split.
  { intros img_spec rest y Hy. apply Qlt_bool_iff in Hy. simpl. now rewrite Hy. }
  split.
  { intros img_spec rest y path iw ih Hpath Hne Hex Hrd Hiw Hih Hcross.
    simpl. destruct (Qlt_bool y area_y); [reflexivity|].
    rewrite Hpath. destruct path as [|c p]; [congruence|].
    rewrite Hex. unfold image_try. rewrite Hrd.
    apply Z.eqb_neq in Hiw, Hih. rewrite Hiw, Hih. simpl.
    apply Qlt_bool_iff in Hcross. rewrite Hcross. reflexivity. }
  split.
  { intros y Hret. unfold _draw_section. simpl.
    fold line_height. rewrite Hret. reflexivity. }
  split.
  { intros y1 y Hbody Hbul. unfold _draw_section.
    cbn [bind fst snd emit ret _split_text_to_lines].
    fold line_height. rewrite Hbody.
    destruct (sec_bullets sec) as [|b bs]; [discriminate Hbul|].
    cbn [bind fst snd emit ret]. rewrite Hbul. reflexivity. }
  eexists. split.
  - unfold _draw_section. simpl. reflexivity.
  - apply draws_above_cons; [intros x' y' text Heq; discriminate Heq|].
    apply draws_above_cons; [intros x' y' text Heq; discriminate Heq|].
    fold line_height.
    apply draws_above_app; [apply body_loop_above|].
    destruct (fst (body_loop _ _ _ _ _)) as [y1|y1]; simpl;
      [|apply draws_above_nil].
    apply draws_above_app.
    + destruct (sec_bullets sec) as [|b bs]; [apply draws_above_nil|].
      cbn [snd bind emit fst app].
      apply draws_above_cons; [intros x' y' text Heq; discriminate Heq|].
      exact (bullets_loop_above L area_x area_y area_w line_height
               (bullet_indent_mm L * mm) (b :: bs) y1).
    + destruct (fst _) as [y2|y2]; simpl;
        [apply images_loop_above|apply draws_above_nil].
Qed.

(** ** Aspect-fit scaling *)

Lemma py_min_le_l (a b : Q) : py_min a b <= a.
Proof.
  unfold py_min. destruct (Qlt_bool b a) eqn:E.
  - apply Qlt_bool_iff in E. apply Qlt_le_weak. exact E.
  - apply Qle_refl.
Qed.

Lemma py_min_le_r (a b : Q) : py_min a b <= b.
Proof.
  unfold py_min. destruct (Qlt_bool b a) eqn:E.
  - apply Qle_refl.
  - apply Qlt_bool_false_iff in E. exact E.
Qed.

Lemma scale_bound (n : Z) (bound scale : Q) :
  (0 < n)%Z -> scale <= bound / inject_Z n -> inject_Z n * scale <= bound.
Proof.
  intros Hn Hs.
  assert (Hpos : 0 < inject_Z n).
  { replace 0 with (inject_Z 0) by reflexivity. rewrite <- Zlt_Qlt. exact Hn. }
  assert (Hne : ~ inject_Z n == 0) by (intro Hz; rewrite Hz in Hpos; lra).
  rewrite Qmult_comm.
  apply Qle_trans with (bound / inject_Z n * inject_Z n).
  - apply Qmult_le_r; assumption.
  - rewrite Qmult_comm, Qmult_div_r by exact Hne. apply Qle_refl.
Qed.

Lemma aspect_kept_scaled (iw ih : Z) (scale : Q) :
  aspect_kept iw ih (inject_Z iw * scale) (inject_Z ih * scale).
Proof. unfold aspect_kept. ring. Qed.

(** ** What each part of the program sends to the canvas *)

Lemma body_loop_cmds (area_w area_x area_y line_height : Q)
    (body_lines : list string) :
  forall y, Forall (section_cmd area_w)
              (snd (body_loop area_x area_y line_height body_lines y)).
Proof.
  induction body_lines as [|line rest IH]; intro y; simpl.
  - constructor.
  - destruct (Qlt_bool y area_y); [constructor|].
    destruct (String.eqb line ""); [apply IH|].
    simpl. constructor; [exact I|apply IH].
Qed.

Lemma wline_loop_cmds (area_w x area_y line_height : Q) (wlines : list string) :
  forall y, Forall (section_cmd area_w)
              (snd (wline_loop x area_y line_height wlines y)).
Proof.
  induction wlines as [|wline rest IH]; intro y; simpl.
  - constructor.
  - destruct (Qlt_bool y area_y); [constructor|].
    simpl. constructor; [exact I|apply IH].
Qed.

Lemma bullets_loop_cmds (L : Layout)
    (area_x area_y area_w line_height bullet_indent : Q) (bullets : list string) :
  forall y, Forall (section_cmd area_w)
              (snd (bullets_loop L area_x area_y area_w line_height
                      bullet_indent bullets y)).
Proof.
  induction bullets as [|b rest IH]; intro y; simpl.
  - constructor.
  - destruct (Qlt_bool y area_y); [constructor|].
    simpl. repeat (constructor; [exact I|]).
    apply Forall_app. split; [apply wline_loop_cmds|].
    destruct (fst (wline_loop _ _ _ _ _)); simpl; [apply IH|constructor].
Qed.

Lemma image_try_cmds (L : Layout) (area_x area_y area_w : Q)
    (path caption : string) (y : Q) :
  Forall (section_cmd area_w)
    (snd (image_try L area_x area_y area_w path caption y)).
Proof.
  unfold image_try.
  destruct (ImageReader path) as [[iw ih]|] eqn:Hrd; [|constructor].
  destruct ((iw =? 0)%Z || (ih =? 0)%Z); [constructor|].
  destruct (Qlt_bool _ area_y); [constructor|].
  assert (Himg : section_cmd area_w
            (drawImage path area_x
               (y - inject_Z ih *
                      py_min (area_w / inject_Z iw) (4000 / inject_Z ih))
               (inject_Z iw * py_min (area_w / inject_Z iw) (4000 / inject_Z ih))
               (inject_Z ih * py_min (area_w / inject_Z iw) (4000 / inject_Z ih)))).
  { simpl. exists iw, ih. split; [exact Hrd|]. intros Hiw Hih.
    split; [apply aspect_kept_scaled|].
    split; apply scale_bound; try assumption;
      [apply py_min_le_l|apply py_min_le_r]. }
  destruct caption as [|c caption']; simpl.
  - constructor; [exact Himg|constructor].
  - constructor; [exact Himg|]. repeat (constructor; [exact I|]). constructor.
Qed.

Lemma images_loop_cmds (L : Layout) (area_x area_y area_w : Q)
    (images : list ImageSpec) :
  forall y, Forall (section_cmd area_w)
              (snd (images_loop L area_x area_y area_w images y)).
Proof.
  induction images as [|img_spec rest IH]; intro y; simpl.
  - constructor.
  - destruct (Qlt_bool y area_y); [constructor|].
    destruct (img_path img_spec) as [[|c p]|]; try apply IH.
    destruct (path_exists (String c p)); [|apply IH].
    simpl. apply Forall_app. split; [apply image_try_cmds|].
    destruct (fst (image_try _ _ _ _ _ _ _)) as [[y'|y']|];
      simpl; try apply IH. constructor.
Qed.

Lemma draw_section_cmds (sec : PosterSection)
    (area_x area_y area_w start_y : Q) (L : Layout) :
  Forall (section_cmd area_w)
    (snd (_draw_section sec area_x area_y area_w start_y L)).
Proof.
  unfold _draw_section. simpl.
  constructor; [exact I|]. constructor; [reflexivity|].
  repeat (constructor; [exact I|]).
  apply Forall_app. split; [apply body_loop_cmds|].
  destruct (fst (body_loop _ _ _ _ _)) as [y1|y1]; simpl; [|constructor].
  apply Forall_app. split.
  - destruct (sec_bullets sec) as [|b bs]; [constructor|].
    cbn [snd bind emit fst app].
    constructor; [exact I|].
    exact (bullets_loop_cmds L area_x area_y area_w (body_size L * (5 # 4))
             (bullet_indent_mm L * mm) (b :: bs) y1).
  - destruct (fst _) as [y2|y2]; simpl; [apply images_loop_cmds|constructor].
Qed.

Lemma logo_try_cmds (x y : Q) (logo_path : string) :
  Forall band_cmd (snd (logo_try x y logo_path)).
Proof.
  unfold logo_try.
  destruct (ImageReader logo_path) as [[iw ih]|] eqn:Hrd; [|constructor].
  destruct ((ih =? 0)%Z || (iw =? 0)%Z); [constructor|].
  simpl. constructor; [|constructor].
  exists iw, ih. split; [exact Hrd|]. intros Hiw Hih.
  split; [apply aspect_kept_scaled|].
  apply scale_bound; [assumption|apply py_min_le_l].
Qed.

Lemma logos_loop_cmds (y : Q) (logo_paths : list string) :
  forall x, Forall band_cmd (snd (logos_loop y logo_paths x)).
Proof.
  induction logo_paths as [|logo_path rest IH]; intro x; simpl.
  - constructor.
  - apply Forall_app. split; [apply logo_try_cmds|].
    destruct (fst (logo_try x y logo_path)); apply IH.
Qed.

Lemma draw_title_band_cmds (content : PosterContent) (W H : Q) (L : Layout) :
  Forall band_cmd (snd (_draw_title_band content W H L)).
Proof.
  unfold _draw_title_band. simpl.
  repeat (constructor; [exact I|]).
  apply Forall_app. split.
  { destruct (subtitle content) as [[|c s]|]; simpl;
      repeat constructor. }
  repeat (constructor; [exact I|]).
  apply Forall_app. split.
  { destruct (affiliations content) as [[|c s]|]; simpl;
      repeat constructor. }
  apply logos_loop_cmds.
Qed.

(** ** Unreadable images and logos *)

Lemma pair_eta {A B : Type} (r : A * B) : (fst r, snd r) = r.
Proof. destruct r; reflexivity. Qed.

Lemma bind_ret_l {A B : Type} (a : A) (f : A -> Canvas B) :
  bind (ret a) f = f a.
Proof. unfold bind, ret. simpl. apply pair_eta. Qed.

Lemma bind_pair {A B : Type} (a : A) (t : list cmd) (f : A -> Canvas B) :
  bind (a, t) f = (fst (f a), t ++ snd (f a)).
Proof. reflexivity. Qed.

Lemma bind_ret_r {A : Type} (m : Canvas A) : bind m ret = m.
Proof.
  unfold bind, ret. cbn [fst snd]. rewrite app_nil_r. apply pair_eta.
Qed.

Lemma bind_ext {A B : Type} (m : Canvas A) (f g : A -> Canvas B) :
  (forall a, f a = g a) -> bind m f = bind m g.
Proof. intro H. unfold bind. rewrite H. reflexivity. Qed.

Lemma images_loop_below (L : Layout) (area_x area_y area_w : Q)
    (images : list ImageSpec) (y : Q) :
  Qlt_bool y area_y = true ->
  images_loop L area_x area_y area_w images y = (y, []).
Proof.
  intro Hy. destruct images as [|img_spec rest]; simpl; [reflexivity|].
  rewrite Hy. reflexivity.
Qed.

Lemma images_loop_skip_head (L : Layout) (area_x area_y area_w : Q)
    (bad : ImageSpec) (rest : list ImageSpec) (y : Q) :
  image_unreadable bad = true ->
  images_loop L area_x area_y area_w (bad :: rest) y =
  images_loop L area_x area_y area_w rest y.
Proof.
  intro Hbad. destruct (Qlt_bool y area_y) eqn:Hy.
  { rewrite !images_loop_below by exact Hy. reflexivity. }
  cbn [images_loop]. rewrite Hy.
  unfold image_unreadable in Hbad.
  destruct (img_path bad) as [[|c p]|]; try reflexivity.
  destruct (path_exists (String c p)); [|reflexivity].
  simpl in Hbad. unfold image_try.
  destruct (ImageReader (String c p)) as [[iw ih]|].
  - rewrite Hbad, bind_ret_l. reflexivity.
  - rewrite bind_ret_l. reflexivity.
Qed.

Lemma images_loop_skip (L : Layout) (area_x area_y area_w : Q)
    (pre : list ImageSpec) (bad : ImageSpec) (post : list ImageSpec) :
  image_unreadable bad = true ->
  forall y,
    images_loop L area_x area_y area_w (pre ++ bad :: post) y =
    images_loop L area_x area_y area_w (pre ++ post) y.
Proof.
  intro Hbad. induction pre as [|a pre IH]; intro y.
  - apply images_loop_skip_head. exact Hbad.
  - cbn [app images_loop].
    destruct (Qlt_bool y area_y); [reflexivity|].
    destruct (img_path a) as [[|c p]|]; try apply IH.
    destruct (path_exists (String c p)); [|apply IH].
    apply bind_ext. intros [[y'|y']|]; try apply IH. reflexivity.
Qed.

Lemma logos_loop_skip (y : Q) (pre : list string) (bad : string)
    (post : list string) :
  logo_unreadable bad = true ->
  forall x, logos_loop y (pre ++ bad :: post) x = logos_loop y (pre ++ post) x.
Proof.
  intro Hbad. induction pre as [|a pre IH]; intro x.
  - cbn [app logos_loop]. unfold logo_unreadable in Hbad. unfold logo_try.
    destruct (ImageReader bad) as [[iw ih]|].
    + rewrite Hbad, bind_ret_l. reflexivity.
    + rewrite bind_ret_l. reflexivity.
  - cbn [app logos_loop]. apply bind_ext. intros [x'|]; apply IH.
Qed.

Lemma draw_section_skip (sec : PosterSection) (pre : list ImageSpec)
    (bad : ImageSpec) (post : list ImageSpec)
    (area_x area_y area_w start_y : Q) (L : Layout) :
  image_unreadable bad = true ->
  _draw_section (with_images sec (pre ++ bad :: post))
    area_x area_y area_w start_y L =
  _draw_section (with_images sec (pre ++ post)) area_x area_y area_w start_y L.
Proof.
  intro Hbad. unfold _draw_section. cbn [with_images sec_title sec_body
    sec_bullets sec_images].
  do 5 (apply bind_ext; intro). apply bind_ext. intros [y1|y1]; [|reflexivity].
  apply bind_ext. intros [y2|y2]; [|reflexivity].
  apply images_loop_skip. exact Hbad.
Qed.

Lemma draw_title_band_skip (content : PosterContent) (pre : list string)
    (bad : string) (post : list string) (W H : Q) (L : Layout) :
  logo_unreadable bad = true ->
  _draw_title_band (with_logos content (pre ++ bad :: post)) W H L =
  _draw_title_band (with_logos content (pre ++ post)) W H L.
Proof.
  intro Hbad. unfold _draw_title_band. cbn [with_logos title subtitle
    authors affiliations logos theme].
  do 10 (apply bind_ext; intro). apply logos_loop_skip. exact Hbad.
Qed.

Lemma place_section_band_ext (c1 c2 : PosterContent) (W H : Q) (L : Layout)
    (left top area_y col_w gutter : Q) (st : cursor) (sec : PosterSection) :
  background c1 W H = background c2 W H ->
  _draw_title_band c1 W H L = _draw_title_band c2 W H L ->
  place_section c1 W H L left top area_y col_w gutter st sec =
  place_section c2 W H L left top area_y col_w gutter st sec.
Proof.
  intros Hbg Hband. unfold place_section. rewrite Hbg, Hband. reflexivity.
Qed.

Lemma flow_sections_band_ext (c1 c2 : PosterContent) (W H : Q) (L : Layout)
    (left top area_y col_w gutter : Q) (secs : list PosterSection) :
  background c1 W H = background c2 W H ->
  _draw_title_band c1 W H L = _draw_title_band c2 W H L ->
  forall st,
    flow_sections c1 W H L left top area_y col_w gutter secs st =
    flow_sections c2 W H L left top area_y col_w gutter secs st.
Proof.
  intros Hbg Hband. induction secs as [|sec rest IH]; intro st; simpl.
  - reflexivity.
  - rewrite (place_section_band_ext c1 c2) by assumption.
    apply bind_ext. exact IH.
Qed.

Lemma place_section_sec_ext (content : PosterContent) (W H : Q) (L : Layout)
    (left top area_y col_w gutter : Q) (st : cursor) (s1 s2 : PosterSection) :
  (forall area_x start_y,
      _draw_section s1 area_x area_y col_w start_y L =
      _draw_section s2 area_x area_y col_w start_y L) ->
  place_section content W H L left top area_y col_w gutter st s1 =
  place_section content W H L left top area_y col_w gutter st s2.
Proof.
  intro Hsec. unfold place_section. rewrite Hsec.
  apply bind_ext. intro y_after.
  destruct (Qlt_bool y_after (area_y + 60)); [|reflexivity].
  apply bind_ext. intro col. rewrite Hsec. reflexivity.
Qed.

Lemma flow_sections_sec_ext (content : PosterContent) (W H : Q) (L : Layout)
    (left top area_y col_w gutter : Q) (secs1 secs2 : list PosterSection)
    (s1 s2 : PosterSection) :
  (forall area_x start_y,
      _draw_section s1 area_x area_y col_w start_y L =
      _draw_section s2 area_x area_y col_w start_y L) ->
  forall st,
    flow_sections content W H L left top area_y col_w gutter
      (secs1 ++ s1 :: secs2) st =
    flow_sections content W H L left top area_y col_w gutter
      (secs1 ++ s2 :: secs2) st.
Proof.
  intro Hsec. induction secs1 as [|sec rest IH]; intro st; cbn [app flow_sections].
  - rewrite (place_section_sec_ext content W H L left top area_y col_w gutter
               st s1 s2 Hsec). reflexivity.
  - apply bind_ext. exact IH.
Qed.

(** C9. A section image or a logo that cannot be read is skipped and the
    loop goes on with the next item: the image loop, the logo loop and the
    whole render behave as if the item were not in the list, so the failure
    neither ends the loop nor leaves the render. *)
Theorem unreadable_images_are_skipped :
  (forall L area_x area_y area_w pre bad post y,
      image_unreadable bad = true ->
      images_loop L area_x area_y area_w (pre ++ bad :: post) y =
      images_loop L area_x area_y area_w (pre ++ post) y) /\
  (forall y pre bad post x,
      logo_unreadable bad = true ->
      logos_loop y (pre ++ bad :: post) x = logos_loop y (pre ++ post) x) /\
  (forall content secs1 sec secs2 pre bad post,
      image_unreadable bad = true ->
      render (with_sections content
                (secs1 ++ with_images sec (pre ++ bad :: post) :: secs2)) =
      render (with_sections content
                (secs1 ++ with_images sec (pre ++ post) :: secs2))) /\
  (forall content pre bad post,
      logo_unreadable bad = true ->
      render (with_logos content (pre ++ bad :: post)) =
      render (with_logos content (pre ++ post))).
Proof.
  split; [intros; apply images_loop_skip; assumption|].
  split; [intros; apply logos_loop_skip; assumption|].
  split.
  - intros content secs1 sec secs2 pre bad post Hbad.
    unfold render. cbn [with_sections layout page_mm footer sections].
    do 2 (apply bind_ext; intro).
    destruct (columns (layout content) =? 0)%Z; [reflexivity|].
    rewrite (flow_sections_band_ext
               (with_sections content
                  (secs1 ++ with_images sec (pre ++ bad :: post) :: secs2))
               (with_sections content
                  (secs1 ++ with_images sec (pre ++ post) :: secs2)))
      by reflexivity.
    rewrite (flow_sections_sec_ext _ _ _ _ _ _ _ _ _ secs1 secs2
               (with_images sec (pre ++ bad :: post))
               (with_images sec (pre ++ post))).
    + reflexivity.
    + intros. apply draw_section_skip. exact Hbad.
  - intros content pre bad post Hbad.
    unfold render. cbn [with_logos layout page_mm footer sections].
    apply bind_ext; intro.
    rewrite (draw_title_band_skip content pre bad post) by exact Hbad.
    apply bind_ext; intro.
    destruct (columns (layout content) =? 0)%Z; [reflexivity|].
    rewrite (flow_sections_band_ext
               (with_logos content (pre ++ bad :: post))
               (with_logos content (pre ++ post))).
    + reflexivity.
    + reflexivity.
    + apply draw_title_band_skip. exact Hbad.
Qed.

(** ** The column paginator *)

Lemma flow_sections_app (content : PosterContent) (W H : Q) (L : Layout)
    (left top area_y col_w gutter : Q) (secs1 secs2 : list PosterSection) :
  forall st,
    flow_sections content W H L left top area_y col_w gutter (secs1 ++ secs2) st =
    bind (flow_sections content W H L left top area_y col_w gutter secs1 st)
         (flow_sections content W H L left top area_y col_w gutter secs2).
Proof.
  induction secs1 as [|sec rest IH]; intro st; cbn [app flow_sections].
  - rewrite bind_ret_l. reflexivity.
  - unfold bind at 1. rewrite IH. unfold bind. simpl.
    rewrite app_assoc. reflexivity.
Qed.

Lemma flow_sections_one (content : PosterContent) (W H : Q) (L : Layout)
    (left top area_y col_w gutter : Q) (sec : PosterSection) (st : cursor) :
  flow_sections content W H L left top area_y col_w gutter [sec] st =
  place_section content W H L left top area_y col_w gutter st sec.
Proof.
  cbn [flow_sections]. apply bind_ret_r.
Qed.

Lemma place_section_step (content : PosterContent) (W H : Q) (L : Layout)
    (left top area_y col_w gutter : Q) (st : cursor) (sec : PosterSection) :
  paginator_step content W H L left top area_y col_w gutter st sec
    (fst (place_section content W H L left top area_y col_w gutter st sec))
    (snd (place_section content W H L left top area_y col_w gutter st sec)).
Proof.
  unfold place_section.
  destruct (_draw_section sec (cur_x st) area_y col_w (cur_y st) L)
    as [y1 t1] eqn:E1.
  rewrite !bind_pair. cbn [fst snd].
  destruct (Qlt_bool y1 (area_y + 60)) eqn:Hlt.
  - apply Qlt_bool_iff in Hlt.
    destruct (cur_col st + 1 >=? columns L)%Z eqn:Hcol.
    + apply Z.geb_le in Hcol.
      destruct (_draw_section sec (left + inject_Z 0 * (col_w + gutter))
                  area_y col_w top L) as [y2 t2] eqn:E2.
      unfold bind, ret, emit. cbn [fst snd app]. rewrite E2.
      cbn [fst snd]. rewrite !app_nil_r, <- !app_assoc.
      eapply step_new_page; eassumption.
    + assert (Hc : (cur_col st + 1 < columns L)%Z).
      { rewrite Z.geb_leb in Hcol. apply Z.leb_gt in Hcol. exact Hcol. }
      destruct (_draw_section sec
                  (left + inject_Z (cur_col st + 1) * (col_w + gutter))
                  area_y col_w top L) as [y2 t2] eqn:E2.
      unfold bind, ret. cbn [fst snd app]. rewrite E2.
      cbn [fst snd]. rewrite !app_nil_r.
      eapply step_next_column; eassumption.
  - apply Qlt_bool_false_iff in Hlt.
    unfold ret. cbn [fst snd]. rewrite app_nil_r.
    eapply step_placed; [eassumption|].
    apply Qle_not_lt. exact Hlt.
Qed.

Lemma draw_section_starts (sec : PosterSection)
    (area_x area_y area_w start_y : Q) (L : Layout) :
  exists rest,
    snd (_draw_section sec area_x area_y area_w start_y L) =
      setFont "Helvetica-Bold" (section_title_size L)
        :: setFillColor black
        :: drawString area_x start_y (sec_title sec)
        :: rest.
Proof. eexists. unfold _draw_section. simpl. reflexivity. Qed.

Lemma app_longer_neq {A : Type} (t extra : list A) :
  extra <> [] -> t ++ extra <> t.
Proof.
  intros Hne Heq. apply Hne.
  apply (app_inv_head t). rewrite app_nil_r. exact Heq.
Qed.

(** ** The shape of a render *)

Lemma section_cmd_content (area_w : Q) (c : cmd) :
  section_cmd area_w c -> content_cmd c.
Proof. destruct c; simpl; tauto. Qed.

Lemma band_cmd_content (c : cmd) : band_cmd c -> content_cmd c.
Proof. destruct c; simpl; tauto. Qed.

Lemma content_cmd_body (c : cmd) : content_cmd c -> body_cmd c.
Proof. destruct c; simpl; tauto. Qed.

Lemma draw_section_content (sec : PosterSection)
    (area_x area_y area_w start_y : Q) (L : Layout) :
  Forall content_cmd (snd (_draw_section sec area_x area_y area_w start_y L)).
Proof.
  eapply Forall_impl; [apply section_cmd_content|apply draw_section_cmds].
Qed.

Lemma draw_title_band_content (content : PosterContent) (W H : Q) (L : Layout) :
  Forall content_cmd (snd (_draw_title_band content W H L)).
Proof.
  eapply Forall_impl; [apply band_cmd_content|apply draw_title_band_cmds].
Qed.

Lemma background_content (content : PosterContent) (W H : Q) :
  Forall content_cmd (snd (background content W H)).
Proof. unfold background. simpl. repeat constructor. Qed.

Lemma place_section_body (content : PosterContent) (W H : Q) (L : Layout)
    (left top area_y col_w gutter : Q) (st : cursor) (sec : PosterSection) :
  Forall body_cmd
    (snd (place_section content W H L left top area_y col_w gutter st sec)).
Proof.
  destruct (place_section_step content W H L left top area_y col_w gutter
              st sec) as [y1 t1 E1 _ | y1 t1 y2 t2 E1 _ _ E2
                         | y1 t1 y2 t2 E1 _ _ E2].
  - pose proof (draw_section_content sec (cur_x st) area_y col_w (cur_y st) L) as H1.
    rewrite E1 in H1. eapply Forall_impl; [apply content_cmd_body|exact H1].
  - pose proof (draw_section_content sec (cur_x st) area_y col_w (cur_y st) L) as H1.
    pose proof (draw_section_content sec
                  (left + inject_Z (cur_col st + 1) * (col_w + gutter))
                  area_y col_w top L) as H2.
    rewrite E1 in H1. rewrite E2 in H2.
    eapply Forall_impl; [apply content_cmd_body|].
    apply Forall_app. split; assumption.
  - pose proof (draw_section_content sec (cur_x st) area_y col_w (cur_y st) L) as H1.
    pose proof (draw_section_content sec
                  (left + inject_Z 0 * (col_w + gutter)) area_y col_w top L) as H2.
    rewrite E1 in H1. rewrite E2 in H2.
    apply Forall_app. split.
    { eapply Forall_impl; [apply content_cmd_body|exact H1]. }
    constructor; [exact I|].
    eapply Forall_impl; [apply content_cmd_body|].
    apply Forall_app. split; [apply background_content|].
    apply Forall_app. split; [apply draw_title_band_content|exact H2].
Qed.

Lemma flow_sections_body (content : PosterContent) (W H : Q) (L : Layout)
    (left top area_y col_w gutter : Q) (secs : list PosterSection) :
  forall st,
    Forall body_cmd
      (snd (flow_sections content W H L left top area_y col_w gutter secs st)).
Proof.
  induction secs as [|sec rest IH]; intro st; cbn [flow_sections].
  - constructor.
  - unfold bind. cbn [snd]. apply Forall_app. split.
    + apply place_section_body.
    + apply IH.
Qed.

(** A render with a column count other than zero completes; its trace is
    the first page start, the section flow, the footer block and the
    save. *)
Lemma render_done (content : PosterContent) :
  columns (layout content) <> 0%Z ->
  let L := layout content in
  let W := fst (page_mm content) * mm in
  let H := snd (page_mm content) * mm in
  render content =
    (Done,
     snd (background content W H) ++
     snd (_draw_title_band content W H L) ++
     snd (flow_sections content W H L (margins_mm L * mm)
            (H - titleband_mm L * mm - margins_mm L * mm)
            (margins_mm L * mm) (column_width L W) (gutter_mm L * mm)
            (sections content)
            {| cur_col := 0; cur_x := margins_mm L * mm;
               cur_y := H - titleband_mm L * mm - margins_mm L * mm |}) ++
     footer_cmds content (W - margins_mm L * mm) (margins_mm L * mm) ++
     [save]).
Proof.
  intros Hcol L W H. unfold render. fold L W H.
  apply Z.eqb_neq in Hcol. fold L in Hcol.
  unfold bind at 1. cbv zeta. unfold bind at 1. cbv zeta.
  unfold bind at 3. cbv zeta. unfold bind at 3. cbv zeta.
  rewrite Hcol.
  unfold footer_cmds.
  destruct (footer content) as [[|c f]|]; reflexivity.
Qed.

(** With a column count of zero the division of line 208 raises, after the
    first page has been started. *)
Lemma render_zero_columns (content : PosterContent) :
  columns (layout content) = 0%Z ->
  let L := layout content in
  let W := fst (page_mm content) * mm in
  let H := snd (page_mm content) * mm in
  render content =
    (Fail ZeroDivisionError,
     snd (background content W H) ++ snd (_draw_title_band content W H L)).
Proof.
  intros Hcol L W H. unfold render. fold L W H.
  apply Z.eqb_eq in Hcol. fold L in Hcol.
  unfold bind at 1. cbv zeta. unfold bind at 1. cbv zeta.
  unfold bind at 3. cbv zeta. unfold bind at 3. cbv zeta.
  rewrite Hcol. unfold ret, bind. cbn [fst snd]. rewrite app_nil_r. reflexivity.
Qed.

(** ** Theme *)

Lemma is_light_false (th : option string) :
  th <> Some "light" -> is_light th = false.
Proof.
  intro Hne. destruct th as [s|]; [|reflexivity].
  simpl. apply String.eqb_neq. intro Heq. apply Hne. now rewrite Heq.
Qed.

Lemma pages_start_skip (P t t' : list cmd) :
  Forall (fun c => c <> showPage) t ->
  pages_start_with P t' -> pages_start_with P (t ++ t').
Proof.
  intros Hno Ht'. induction Hno as [|c t Hc _ IH]; simpl.
  - exact Ht'.
  - split; [intro Heq; contradiction|exact IH].
Qed.

Lemma content_cmd_no_showPage (t : list cmd) :
  Forall content_cmd t -> Forall (fun c => c <> showPage) t.
Proof.
  apply Forall_impl. intros c Hc Heq. rewrite Heq in Hc. exact Hc.
Qed.

Lemma dark_page_start_shape (content : PosterContent) (W H : Q) (L : Layout) :
  is_light (theme content) = false ->
  exists rest,
    snd (background content W H) ++ snd (_draw_title_band content W H L) =
      dark_page_start W H L ++ rest.
Proof.
  intro Hth. unfold background, _draw_title_band. rewrite Hth.
  eexists. simpl. reflexivity.
Qed.

Lemma place_section_pages (content : PosterContent) (W H : Q) (L : Layout)
    (left top area_y col_w gutter : Q) (st : cursor) (sec : PosterSection)
    (t' : list cmd) :
  is_light (theme content) = false ->
  pages_start_with (dark_page_start W H L) t' ->
  pages_start_with (dark_page_start W H L)
    (snd (place_section content W H L left top area_y col_w gutter st sec) ++ t').
Proof.
  intros Hth Ht'.
  destruct (place_section_step content W H L left top area_y col_w gutter
              st sec) as [y1 t1 E1 _ | y1 t1 y2 t2 E1 _ _ E2
                         | y1 t1 y2 t2 E1 _ _ E2].
  - pose proof (draw_section_content sec (cur_x st) area_y col_w (cur_y st) L) as H1.
    rewrite E1 in H1.
    apply pages_start_skip; [apply content_cmd_no_showPage; exact H1|exact Ht'].
  - pose proof (draw_section_content sec (cur_x st) area_y col_w (cur_y st) L) as H1.
    pose proof (draw_section_content sec
                  (left + inject_Z (cur_col st + 1) * (col_w + gutter))
                  area_y col_w top L) as H2.
    rewrite E1 in H1. rewrite E2 in H2.
    apply pages_start_skip; [|exact Ht'].
    apply content_cmd_no_showPage. apply Forall_app. split; assumption.
  - pose proof (draw_section_content sec (cur_x st) area_y col_w (cur_y st) L) as H1.
    pose proof (draw_section_content sec
                  (left + inject_Z 0 * (col_w + gutter)) area_y col_w top L) as H2.
    rewrite E1 in H1. rewrite E2 in H2.
    cbn [snd] in H1, H2.
    rewrite <- app_assoc.
    apply pages_start_skip; [apply content_cmd_no_showPage; exact H1|].
    destruct (dark_page_start_shape content W H L Hth) as [rest Hrest].
    cbn [app pages_start_with]. split.
    + intros _. exists (rest ++ t2 ++ t').
      rewrite <- !app_assoc.
      rewrite (app_assoc (snd (background content W H))), Hrest.
      rewrite <- !app_assoc. reflexivity.
    + rewrite <- !app_assoc.
      apply pages_start_skip;
        [apply content_cmd_no_showPage; apply background_content|].
      apply pages_start_skip;
        [apply content_cmd_no_showPage; apply draw_title_band_content|].
      apply pages_start_skip; [apply content_cmd_no_showPage; exact H2|exact Ht'].
Qed.

Lemma flow_sections_pages (content : PosterContent) (W H : Q) (L : Layout)
    (left top area_y col_w gutter : Q) (secs : list PosterSection)
    (t' : list cmd) :
  is_light (theme content) = false ->
  pages_start_with (dark_page_start W H L) t' ->
  forall st,
    pages_start_with (dark_page_start W H L)
      (snd (flow_sections content W H L left top area_y col_w gutter secs st)
       ++ t').
Proof.
  intros Hth Ht'. induction secs as [|sec rest IH]; intro st;
    cbn [flow_sections].
  - exact Ht'.
  - unfold bind. cbn [snd]. rewrite <- app_assoc.
    apply place_section_pages; [exact Hth|apply IH].
Qed.

Lemma footer_cmds_no_showPage (content : PosterContent) (right bottom : Q) :
  Forall (fun c => c <> showPage) (footer_cmds content right bottom ++ [save]).
Proof.
  unfold footer_cmds.
  destruct (footer content) as [[|c f]|]; simpl;
    repeat (constructor; [discriminate|]); constructor.
Qed.

Lemma render_outcome (content : PosterContent) :
  fst (render content) =
    if (columns (layout content) =? 0)%Z then Fail ZeroDivisionError else Done.
Proof.
  destruct (columns (layout content) =? 0)%Z eqn:Hcol.
  - apply Z.eqb_eq in Hcol. rewrite (render_zero_columns content Hcol).
    reflexivity.
  - apply Z.eqb_neq in Hcol. rewrite (render_done content Hcol). reflexivity.
Qed.

Lemma render_dark (content : PosterContent) :
  is_light (theme content) = false ->
  let L := layout content in
  let W := fst (page_mm content) * mm in
  let H := snd (page_mm content) * mm in
  (exists rest, snd (render content) = dark_page_start W H L ++ rest) /\
  pages_start_with (dark_page_start W H L) (snd (render content)).
Proof.
  intros Hth L W H.
  destruct (dark_page_start_shape content W H L Hth) as [rest Hrest].
  destruct (Z.eq_dec (columns (layout content)) 0) as [Hcol|Hcol].
  - rewrite (render_zero_columns content Hcol). cbn [snd]. fold L W H.
    split; [exists rest; exact Hrest|].
    rewrite <- (app_nil_r (_ ++ _)), <- app_assoc.
    apply pages_start_skip;
      [apply content_cmd_no_showPage; apply background_content|].
    apply pages_start_skip;
      [apply content_cmd_no_showPage; apply draw_title_band_content|].
    exact I.
  - rewrite (render_done content Hcol). cbn [snd]. fold L W H.
    split.
    + eexists. rewrite app_assoc, Hrest, <- app_assoc. reflexivity.
    + apply pages_start_skip;
        [apply content_cmd_no_showPage; apply background_content|].
      apply pages_start_skip;
        [apply content_cmd_no_showPage; apply draw_title_band_content|].
      apply flow_sections_pages; [exact Hth|].
      rewrite <- (app_nil_r (_ ++ [save])).
      apply pages_start_skip; [apply footer_cmds_no_showPage|exact I].
Qed.

(** C10. The theme is compared with the string "light" and nothing else:
    with any other value the render is not refused (it ends as it does
    with "light") and every page, the first one and each one opened by
    [showPage], starts with the black background, the dark gray band and
    the white smoke band text. *)
Theorem non_light_theme_is_dark (data : PosterData) (title_ : string)
    (th : option string) :
  d_title data = Some title_ -> d_theme data = Some th -> th <> Some "light" ->
  (exists rest,
      snd (build_poster data) =
        dark_page_start (page_W data) (page_H data) (d_layout data) ++ rest) /\
  pages_start_with (dark_page_start (page_W data) (page_H data) (d_layout data))
    (snd (build_poster data)) /\
  fst (build_poster data) =
    fst (build_poster (with_theme data (Some (Some "light")))).
Proof.
  intros Htitle Htheme Hne.
  assert (Hth : is_light (theme (content_of data title_)) = false).
  { cbn [content_of theme]. rewrite Htheme. apply is_light_false. exact Hne. }
  unfold build_poster. cbn [with_theme d_title]. rewrite Htitle.
  split; [|split].
  - apply (render_dark _ Hth).
  - apply (render_dark _ Hth).
  - rewrite !render_outcome. reflexivity.
Qed.

(** ** Footer *)

Lemma render_footer (content : PosterContent) (f : string) :
  footer content = Some f -> f <> "" ->
  columns (layout content) <> 0%Z ->
  let L := layout content in
  let W := fst (page_mm content) * mm in
  exists pre,
    render content =
      (Done,
       pre ++ [setFont "Helvetica" 20; setFillColor black;
               drawRightString (W - margins_mm L * mm)
                 (margins_mm L * mm - 10) f;
               save]) /\
    Forall body_cmd pre.
Proof.
  intros Hfooter Hne Hcol L W.
  rewrite (render_done content Hcol). fold L W.
  unfold footer_cmds. rewrite Hfooter.
  destruct f as [|c f']; [congruence|].
  match goal with
  | |- exists pre, (Done, ?a ++ ?b ++ ?c ++ _ ++ _) = _ /\ _ =>
      exists (a ++ b ++ c)
  end.
  split.
  - rewrite <- !app_assoc. reflexivity.
  - apply Forall_app. split.
    { eapply Forall_impl; [apply content_cmd_body|apply background_content]. }
    apply Forall_app. split; [|apply flow_sections_body].
    eapply Forall_impl; [apply content_cmd_body|apply draw_title_band_content].
Qed.

(** C7, as the program has it. A document with a title, a non-empty
    footer and a column count other than zero renders to the end and draws
    the footer exactly once: right-aligned at the right content edge
    [W - margins_mm * mm], with its baseline at [margins_mm * mm - 10],
    which is 10 units under the bottom margin line and not above it, as
    the last drawing command before the save, hence on the last page
    only.  No other right-aligned string and no other save is emitted. *)
Theorem footer_once_on_last_page (data : PosterData) (title_ f : string) :
  d_title data = Some title_ -> d_footer data = Some f -> f <> "" ->
  columns (d_layout data) <> 0%Z ->
  let right := page_W data - margins_mm (d_layout data) * mm in
  let bottom := margins_mm (d_layout data) * mm in
  exists pre,
    build_poster data =
      (Done,
       pre ++ [setFont "Helvetica" 20; setFillColor black;
               drawRightString right (bottom - 10) f; save]) /\
    (forall x y text, ~ In (drawRightString x y text) pre) /\
    (forall c, In c pre -> c <> save).
Proof.
  intros Htitle Hfooter Hne Hcol right bottom.
  unfold build_poster. rewrite Htitle.
  destruct (render_footer (content_of data title_) f Hfooter Hne Hcol)
    as [pre [Hrender Hpre]].
  exists pre. split; [exact Hrender|].
  rewrite Forall_forall in Hpre.
  split.
  - intros x y text Hin. exact (Hpre _ Hin).
  - intros c Hin Heq. subst c. exact (Hpre _ Hin).
Qed.

(** ** Configuration errors *)

(** C6, as the program has it. A document without a title fails before
    any command reaches the canvas.  The column width is not examined: with
    a title and a column count other than zero the render completes,
    whatever the sign of the computed column width, and it starts by
    painting the page background. *)
Theorem config_errors_as_handled (data : PosterData) :
  (d_title data = None -> build_poster data = (Fail KeyError, [])) /\
  (forall title_,
      d_title data = Some title_ -> columns (d_layout data) <> 0%Z ->
      fst (build_poster data) = Done /\
      exists rest,
        snd (build_poster data) =
          setFillColor
            (if is_light (get (d_theme data) (Some "light"))
             then white else black)
          :: rect 0 0 (page_W data) (page_H data) 1 0 :: rest).
Proof.
  split.
  - intro Htitle. unfold build_poster. rewrite Htitle. reflexivity.
  - intros title_ Htitle Hcol. unfold build_poster. rewrite Htitle.
    rewrite (render_done (content_of data title_) Hcol).
    split; [reflexivity|]. eexists. reflexivity.
Qed.

(** ** The line wrapper *)

Section Wrapper.

Variables (font_name : string) (font_size max_width : Q).

Lemma one_word_ok (w : string) : fits_or_alone font_name font_size max_width [w].
Proof.
  unfold fits_or_alone.
  destruct (Qlt_le_dec max_width (stringWidth w font_name font_size)) as [Hw|Hw].
  - right. right. exists w. split; [reflexivity|exact Hw].
  - right. left. exact Hw.
Qed.

(** The invariant of the word loop: [cur] is a run of words of the
    paragraph that ends where the words still to place begin, it fits or
    is one word alone, and every line closed so far is a wrapped line. *)
Lemma wrap_words_inv (ps : list string) (p : string) (words : list string) :
  In p ps ->
  forall cur lines a,
    split p = a ++ cur ++ words -> fits_or_alone font_name font_size max_width cur -> Forall (wrapped_line font_name font_size max_width ps) lines ->
    exists a',
      split p = a' ++ fst (wrap_words font_name font_size max_width words cur lines)
      /\ fits_or_alone font_name font_size max_width (fst (wrap_words font_name font_size max_width words cur lines))
      /\ Forall (wrapped_line font_name font_size max_width ps)
           (snd (wrap_words font_name font_size max_width words cur lines)).
Proof.
  intro Hp. induction words as [|w words' IH]; intros cur lines a Hall Hcur Hlines.
  - simpl. exists a. rewrite app_nil_r in Hall. auto.
  - simpl. destruct (Qle_bool _ max_width) eqn:E.
    + apply (IH (cur ++ [w]) lines a).
      * rewrite Hall, <- app_assoc. reflexivity.
      * right. left. apply Qle_bool_iff. exact E.
      * exact Hlines.
    + apply (IH [w] (lines ++ [join cur]) (a ++ cur)).
      * rewrite Hall, <- app_assoc. reflexivity.
      * apply one_word_ok.
      * apply Forall_app. split; [exact Hlines|].
        constructor; [|constructor].
        exists p, cur, a, (w :: words'). auto.
Qed.

Lemma wrap_paragraph_inv (ps : list string) (p : string) (lines : list string) :
  In p ps -> Forall (wrapped_line font_name font_size max_width ps) lines ->
  Forall (wrapped_line font_name font_size max_width ps)
    (wrap_paragraph font_name font_size max_width lines p).
Proof.
  intros Hp Hlines. unfold wrap_paragraph.
  destruct p as [|c p'].
  - apply Forall_app. split; [exact Hlines|].
    constructor; [|constructor].
    exists "", [], [], []. repeat split; [exact Hp|].
    left. reflexivity.
  - destruct (wrap_words_inv ps (String c p') (split (String c p')) Hp
                [] lines []) as (a' & Hall & Hcur & Hlines');
      [reflexivity|left; reflexivity|exact Hlines|].
    destruct (wrap_words font_name font_size max_width
                (split (String c p')) [] lines) as [cur' lines'].
    cbn [fst snd] in Hall, Hcur, Hlines'.
    destruct cur' as [|w cur'']; [exact Hlines'|].
    apply Forall_app. split; [exact Hlines'|].
    constructor; [|constructor].
    exists (String c p'), (w :: cur''), a', [].
    rewrite app_nil_r. auto.
Qed.

Lemma fold_wrap_paragraph_inv (ps qs : list string) :
  incl qs ps ->
  forall lines,
    Forall (wrapped_line font_name font_size max_width ps) lines ->
    Forall (wrapped_line font_name font_size max_width ps)
      (fold_left (wrap_paragraph font_name font_size max_width) qs lines).
Proof.
  induction qs as [|q qs IH]; intros Hincl lines Hlines; simpl.
  - exact Hlines.
  - apply IH.
    + intros x Hx. apply Hincl. right. exact Hx.
    + apply wrap_paragraph_inv; [apply Hincl; left; reflexivity|exact Hlines].
Qed.

Lemma split_lines_wrapped (text line : string) :
  In line (split_lines font_name font_size max_width text) ->
  wrapped_line font_name font_size max_width (paragraphs_of text) line.
Proof.
  intro Hin.
  pose proof (fold_wrap_paragraph_inv (paragraphs_of text) (paragraphs_of text)
                (incl_refl _) [] (Forall_nil _)) as Hall.
  rewrite Forall_forall in Hall. apply Hall. exact Hin.
Qed.

End Wrapper.

(** C5, as the program has it. Every line the wrapper returns is made of
    consecutive whole words of one paragraph; a line that is not empty is
    no wider than [max_width], unless it is a single word which alone is
    wider.  Empty lines are returned whatever [max_width] is. *)
Theorem wrapped_lines_fit (font_name : string) (font_size max_width : Q)
    (text line : string) :
  In line (split_lines font_name font_size max_width text) ->
  wrapped_line font_name font_size max_width (paragraphs_of text) line /\
  (line = "" \/
   line_bound_as_specified font_name font_size max_width text line).
Proof.
  intro Hin.
  pose proof (split_lines_wrapped font_name font_size max_width text line Hin)
    as Hw.
  split; [exact Hw|].
  destruct Hw as (p & ws & a & b & Hp & Hsplit & Hline & [Hnil|[Hfit|Hone]]).
  - left. rewrite Hline, Hnil. reflexivity.
  - right. left. rewrite Hline. exact Hfit.
  - right. right. destruct Hone as (w & Hws & Hwide).
    rewrite Hline, Hws. cbn [join String.concat]. split; [|exact Hwide].
    exists p. split; [exact Hp|].
    rewrite Hsplit, Hws. apply in_or_app. right. left. reflexivity.
Qed.

Lemma wrap_words_keeps_lines (font_name : string) (font_size max_width : Q)
    (words : list string) :
  forall cur lines,
    exists extra,
      snd (wrap_words font_name font_size max_width words cur lines) =
        lines ++ extra.
Proof.
  induction words as [|w words' IH]; intros cur lines; simpl.
  - exists []. rewrite app_nil_r. reflexivity.
  - destruct (Qle_bool _ max_width).
    + apply IH.
    + destruct (IH [w] (lines ++ [join cur])) as [extra Hextra].
      exists ([join cur] ++ extra). rewrite Hextra, <- app_assoc. reflexivity.
Qed.

Lemma wrap_words_cur_nonempty (font_name : string) (font_size max_width : Q)
    (words : list string) :
  forall cur lines,
    cur <> [] \/ words <> [] ->
    fst (wrap_words font_name font_size max_width words cur lines) <> [].
Proof.
  induction words as [|w words' IH]; intros cur lines Hne; simpl.
  - destruct Hne as [Hne|Hne]; [exact Hne|congruence].
  - destruct (Qle_bool _ max_width); apply IH; left.
    + destruct cur; discriminate.
    + discriminate.
Qed.

Lemma wrap_paragraph_keeps_lines (font_name : string)
    (font_size max_width : Q) (lines : list string) (p : string) :
  exists extra,
    wrap_paragraph font_name font_size max_width lines p = lines ++ extra.
Proof.
  unfold wrap_paragraph. destruct p as [|c p']; [eexists; reflexivity|].
  destruct (wrap_words_keeps_lines font_name font_size max_width
              (split (String c p')) [] lines) as [extra Hextra].
  destruct (wrap_words _ _ _ _ _ _) as [cur' lines'].
  cbn [snd] in Hextra. rewrite Hextra.
  destruct cur'.
  - exists extra. reflexivity.
  - eexists. rewrite <- app_assoc. reflexivity.
Qed.

Lemma fold_wrap_paragraph_keeps_lines (font_name : string)
    (font_size max_width : Q) (qs : list string) :
  forall lines,
    exists extra,
      fold_left (wrap_paragraph font_name font_size max_width) qs lines =
        lines ++ extra.
Proof.
  induction qs as [|q qs IH]; intro lines; simpl.
  - exists []. rewrite app_nil_r. reflexivity.
  - destruct (wrap_paragraph_keeps_lines font_name font_size max_width lines q)
      as [e1 H1].
    destruct (IH (wrap_paragraph font_name font_size max_width lines q))
      as [e2 H2].
    exists (e1 ++ e2). rewrite H2, H1, <- app_assoc. reflexivity.
Qed.

(** *** The wrapper never returns the empty list *)

Lemma split_on_nonempty (sep : ascii) (s : string) : split_on sep s <> [].
Proof.
  induction s as [|c s' IH]; simpl; [discriminate|].
  destruct (Ascii.eqb c sep); [discriminate|].
  destruct (split_on sep s'); discriminate.
Qed.

Lemma lstrip_head (s : string) :
  lstrip s = "" \/ exists c r, lstrip s = String c r /\ isspace c = false.
Proof.
  induction s as [|c s' IH]; simpl; [left; reflexivity|].
  destruct (isspace c) eqn:E; [exact IH|].
  right. exists c, s'. split; [reflexivity|exact E].
Qed.

Lemma strip_head (s : string) :
  strip s = "" \/ exists c r, strip s = String c r /\ isspace c = false.
Proof.
  unfold strip. destruct (lstrip_head s) as [H|(c & r & H & Hc)]; rewrite H.
  - left. reflexivity.
  - right. simpl. destruct (rstrip r).
    + rewrite Hc. exists c, "". split; [reflexivity|exact Hc].
    + eexists c, _. split; [reflexivity|exact Hc].
Qed.

Lemma split_head_nonempty (c : ascii) (r : string) :
  isspace c = false -> split (String c r) <> [].
Proof.
  intro Hc. simpl. rewrite Hc.
  destruct r as [|c' r']; [discriminate|].
  destruct (isspace c'); [discriminate|].
  destruct (split (String c' r')); discriminate.
Qed.

Lemma wrap_paragraph_nonempty (font_name : string) (font_size max_width : Q)
    (lines : list string) (s : string) :
  wrap_paragraph font_name font_size max_width lines (strip s) <> [].
Proof.
  unfold wrap_paragraph.
  destruct (strip_head s) as [H|(c & r & H & Hc)]; rewrite H.
  - destruct lines; discriminate.
  - pose proof (wrap_words_cur_nonempty font_name font_size max_width
                  (split (String c r)) [] lines
                  (or_intror (split_head_nonempty c r Hc))) as Hcur.
    destruct (wrap_words _ _ _ _ _ _) as [cur' lines'].
    cbn [fst] in Hcur. destruct cur' as [|w cur'']; [congruence|].
    destruct lines'; discriminate.
Qed.

Lemma split_lines_nonempty (font_name : string) (font_size max_width : Q)
    (text : string) :
  split_lines font_name font_size max_width text <> [].
Proof.
  unfold split_lines.
  destruct (split_on newline text) as [|s0 ss] eqn:E.
  - exfalso. exact (split_on_nonempty newline text E).
  - cbn [map fold_left].
    destruct (fold_wrap_paragraph_keeps_lines font_name font_size max_width
                (map strip ss)
                (wrap_paragraph font_name font_size max_width [] (strip s0)))
      as [extra Hextra].
    rewrite Hextra. intro Hnil. apply app_eq_nil in Hnil.
    exact (wrap_paragraph_nonempty font_name font_size max_width [] s0
             (proj1 Hnil)).
Qed.

(** C3. A paragraph whose first word is wider than [max_width] makes the
    wrapper return an empty line before that word: the empty line does not
    come from a blank line of the input, and reading it as a paragraph
    break does not give the text back. *)
Theorem overwide_first_word_adds_empty_line (font_name : string)
    (font_size max_width : Q) (text p w : string) (ws : list string) :
  paragraphs_of text = [p] -> split p = w :: ws ->
  max_width < stringWidth w font_name font_size ->
  (exists rest,
      split_lines font_name font_size max_width text = "" :: rest) /\
  (ws = [] -> split_lines font_name font_size max_width text = [""; w]).
Proof.
  intros Hps Hsplit Hwide.
  assert (Hno : Qle_bool (stringWidth w font_name font_size) max_width = false).
  { destruct (Qle_bool _ _) eqn:E; [|reflexivity].
    apply Qle_bool_iff in E. exfalso. exact (Qlt_not_le _ _ Hwide E). }
  unfold split_lines. fold (paragraphs_of text). rewrite Hps.
  cbn [fold_left]. unfold wrap_paragraph.
  destruct p as [|c p']; [discriminate Hsplit|].
  rewrite Hsplit. cbn [wrap_words app join String.concat]. rewrite Hno.
  split.
  - destruct (wrap_words_keeps_lines font_name font_size max_width ws [w] [""])
      as [extra Hextra].
    destruct (wrap_words _ _ _ ws _ _) as [cur' lines'].
    cbn [snd] in Hextra. rewrite Hextra.
    destruct cur'; eexists; reflexivity.
  - intros ->. reflexivity.
Qed.

(** * Further properties *)

(** ** Words and lines *)

Lemma is_word_cons (c : ascii) (w : string) :
  isspace c = false -> (w = "" \/ is_word w) -> is_word (String c w).
Proof.
  intros Hc Hw. split; [discriminate|].
  simpl. rewrite Hc. simpl. destruct Hw as [->|[_ Hw]]; [reflexivity|exact Hw].
Qed.

Lemma split_words (s : string) : Forall is_word (split s).
Proof.
  induction s as [|c s' IH]; simpl; [constructor|].
  destruct (isspace c) eqn:Hc; [exact IH|].
  destruct s' as [|c' s''].
  - constructor; [|constructor]. apply is_word_cons; [exact Hc|left; reflexivity].
  - destruct (isspace c') eqn:Hc'.
    + constructor; [|exact IH].
      apply is_word_cons; [exact Hc|left; reflexivity].
    + destruct (split (String c' s'')) as [|w ws].
      * constructor; [|constructor].
        apply is_word_cons; [exact Hc|left; reflexivity].
      * inversion IH as [|w' ws' Hw Hws]; subst.
        constructor; [|exact Hws].
        apply is_word_cons; [exact Hc|right; exact Hw].
Qed.

Lemma split_word_then_space (w r : string) :
  is_word w -> split (String.append w (String " " r)) = w :: split r.
Proof.
  intros [Hne Hns]. induction w as [|c w' IH]; [congruence|].
  simpl in Hns. apply andb_true_iff in Hns. destruct Hns as [Hc Hns].
  apply negb_true_iff in Hc.
  cbn [String.append split]. rewrite Hc.
  destruct w' as [|c' w''].
  - cbn [String.append]. reflexivity.
  - cbn [String.append].
    assert (Hc' : isspace c' = false).
    { simpl in Hns. apply andb_true_iff in Hns. destruct Hns as [Hc' _].
      apply negb_true_iff in Hc'. exact Hc'. }
    rewrite Hc'.
    change (String c' (String.append w'' (String " " r)))
      with (String.append (String c' w'') (String " " r)).
    rewrite IH; [reflexivity|discriminate|exact Hns].
Qed.

Lemma split_word (w : string) : is_word w -> split w = [w].
Proof.
  intros [Hne Hns]. induction w as [|c w' IH]; [congruence|].
  simpl in Hns. apply andb_true_iff in Hns. destruct Hns as [Hc Hns].
  apply negb_true_iff in Hc.
  cbn [split]. rewrite Hc.
  destruct w' as [|c' w'']; [reflexivity|].
  assert (Hc' : isspace c' = false).
  { simpl in Hns. apply andb_true_iff in Hns. destruct Hns as [Hc' _].
    apply negb_true_iff in Hc'. exact Hc'. }
  rewrite Hc'. rewrite IH; [reflexivity|discriminate|exact Hns].
Qed.

(** [" ".join(ws).split() == ws] for a list of words. *)
Lemma split_join (ws : list string) :
  Forall is_word ws -> split (join ws) = ws.
Proof.
  induction ws as [|w ws' IH]; intro Hws; [reflexivity|].
  inversion Hws as [|w0 ws0 Hw Hws']; subst.
  destruct ws' as [|w2 ws''].
  - cbn [join String.concat]. apply split_word. exact Hw.
  - change (join (w :: w2 :: ws''))
      with (String.append w (String " " (join (w2 :: ws'')))).
    rewrite split_word_then_space by exact Hw.
    rewrite IH by exact Hws'. reflexivity.
Qed.

(** The word loop keeps the words: those of the closed lines, then those of
    the open line, then those still to place. *)
Lemma wrap_words_words (font_name : string) (font_size max_width : Q)
    (words : list string) :
  forall cur lines,
    Forall is_word cur -> Forall is_word words ->
    flat_map split
      (snd (wrap_words font_name font_size max_width words cur lines))
    ++ fst (wrap_words font_name font_size max_width words cur lines)
    = flat_map split lines ++ cur ++ words
    /\ Forall is_word
         (fst (wrap_words font_name font_size max_width words cur lines)).
Proof.
  induction words as [|w words' IH]; intros cur lines Hcur Hwords; simpl.
  - rewrite app_nil_r. split; [reflexivity|exact Hcur].
  - inversion Hwords as [|w0 ws0 Hw Hwords']; subst.
    destruct (Qle_bool _ max_width).
    + destruct (IH (cur ++ [w]) lines) as [Heq Hall];
        [apply Forall_app; split; [exact Hcur|constructor; [exact Hw|constructor]]
        |exact Hwords'|].
      split; [|exact Hall].
      rewrite Heq, <- app_assoc. reflexivity.
    + destruct (IH [w] (lines ++ [join cur])) as [Heq Hall];
        [constructor; [exact Hw|constructor]|exact Hwords'|].
      split; [|exact Hall].
      rewrite Heq, flat_map_app. cbn [flat_map].
      rewrite (split_join cur Hcur), app_nil_r, <- app_assoc. reflexivity.
Qed.

Lemma wrap_paragraph_words (font_name : string) (font_size max_width : Q)
    (lines : list string) (p : string) :
  flat_map split (wrap_paragraph font_name font_size max_width lines p) =
  flat_map split lines ++ split p.
Proof.
  unfold wrap_paragraph. destruct p as [|c p'].
  - rewrite flat_map_app. reflexivity.
  - destruct (wrap_words_words font_name font_size max_width
                (split (String c p')) [] lines (Forall_nil _)
                (split_words (String c p'))) as [Heq Hall].
    destruct (wrap_words _ _ _ _ _ _) as [cur' lines'].
    cbn [fst snd] in Heq, Hall. cbn [app] in Heq.
    destruct cur' as [|w cur''].
    + rewrite app_nil_r in Heq. exact Heq.
    + rewrite flat_map_app. cbn [flat_map].
      rewrite (split_join (w :: cur'') Hall), app_nil_r. exact Heq.
Qed.

Lemma fold_wrap_paragraph_words (font_name : string)
    (font_size max_width : Q) (qs : list string) :
  forall lines,
    flat_map split
      (fold_left (wrap_paragraph font_name font_size max_width) qs lines) =
    flat_map split lines ++ flat_map split qs.
Proof.
  induction qs as [|q qs IH]; intro lines; cbn [fold_left flat_map].
  - rewrite app_nil_r. reflexivity.
  - rewrite IH, wrap_paragraph_words, <- app_assoc. reflexivity.
Qed.

(** X1. Read in order, the words of the lines the wrapper returns are the
    words of the text: the wrapper drops, repeats, reorders or breaks no
    word, whatever the measure and the width. *)
Theorem wrapper_keeps_the_words (font_name : string)
    (font_size max_width : Q) (text : string) :
  flat_map split (split_lines font_name font_size max_width text) =
  flat_map split (paragraphs_of text).
Proof.
  unfold split_lines. fold (paragraphs_of text).
  rewrite fold_wrap_paragraph_words. reflexivity.
Qed.

Lemma wrap_words_from_nil (font_name : string) (font_size max_width : Q)
    (words : list string) :
  forall cur lines,
    wrap_words font_name font_size max_width words cur lines =
      (fst (wrap_words font_name font_size max_width words cur []),
       lines ++ snd (wrap_words font_name font_size max_width words cur [])).
Proof.
  induction words as [|w words' IH]; intros cur lines; simpl.
  - rewrite app_nil_r. reflexivity.
  - destruct (Qle_bool _ max_width).
    + apply IH.
    + rewrite (IH [w] (lines ++ [join cur])), (IH [w] [join cur]).
      cbn [fst snd]. rewrite <- app_assoc. reflexivity.
Qed.

Lemma wrap_paragraph_from_nil (font_name : string) (font_size max_width : Q)
    (lines : list string) (p : string) :
  wrap_paragraph font_name font_size max_width lines p =
  lines ++ wrap_paragraph font_name font_size max_width [] p.
Proof.
  unfold wrap_paragraph. destruct p as [|c p']; [reflexivity|].
  rewrite (wrap_words_from_nil font_name font_size max_width
             (split (String c p')) [] lines).
  destruct (wrap_words font_name font_size max_width (split (String c p')) [] [])
    as [cur' lines'].
  cbn [fst snd]. destruct cur'; [reflexivity|].
  rewrite <- app_assoc. reflexivity.
Qed.

Lemma fold_wrap_paragraph_flat (font_name : string) (font_size max_width : Q)
    (qs : list string) :
  forall lines,
    fold_left (wrap_paragraph font_name font_size max_width) qs lines =
    lines ++ flat_map (wrap_paragraph font_name font_size max_width []) qs.
Proof.
  induction qs as [|q qs IH]; intro lines; cbn [fold_left flat_map].
  - rewrite app_nil_r. reflexivity.
  - rewrite IH, (wrap_paragraph_from_nil _ _ _ lines q), <- app_assoc.
    reflexivity.
Qed.

Lemma split_lines_flat (font_name : string) (font_size max_width : Q)
    (text : string) :
  split_lines font_name font_size max_width text =
  flat_map (wrap_paragraph font_name font_size max_width [])
    (paragraphs_of text).
Proof.
  unfold split_lines. fold (paragraphs_of text).
  apply (fold_wrap_paragraph_flat font_name font_size max_width
           (paragraphs_of text) []).
Qed.

Lemma split_on_append (sep : ascii) (a b : string) :
  split_on sep (String.append a (String sep b)) =
  split_on sep a ++ split_on sep b.
Proof.
  induction a as [|c a' IH]; cbn [String.append split_on].
  - rewrite Ascii.eqb_refl. reflexivity.
  - destruct (Ascii.eqb c sep).
    + rewrite IH. reflexivity.
    + rewrite IH. pose proof (split_on_nonempty sep a') as Hne.
      destruct (split_on sep a') as [|p ps]; [congruence|reflexivity].
Qed.

(** X2. The wrapper works line by line of its input: the lines of a text
    made of two parts joined by a line break are the lines of the first
    part followed by the lines of the second, and a text gives at least as
    many lines as it has input lines. *)
Theorem wrapper_works_line_by_line (font_name : string)
    (font_size max_width : Q) (a b : string) :
  split_lines font_name font_size max_width
    (String.append a (String newline b)) =
  split_lines font_name font_size max_width a
  ++ split_lines font_name font_size max_width b
  /\
  (List.length (split_on newline a)
   <= List.length (split_lines font_name font_size max_width a))%nat.
Proof.
  split.
  - rewrite !split_lines_flat. unfold paragraphs_of.
    rewrite split_on_append, map_app, flat_map_app. reflexivity.
  - rewrite split_lines_flat. unfold paragraphs_of.
    induction (split_on newline a) as [|s0 ss IH];
      cbn [map flat_map List.length].
    + apply Nat.le_refl.
    + rewrite List.length_app.
      pose proof (wrap_paragraph_nonempty font_name font_size max_width [] s0)
        as Hne.
      destruct (wrap_paragraph font_name font_size max_width [] (strip s0));
        [congruence|]. cbn [List.length]. lia.
Qed.

(** X3. The wrapper never returns the empty list, so reading [wrapped[0]]
    for a bullet cannot fail; on the canvas it only sets the font it was
    given. *)
Theorem wrapper_returns_a_line (text font_name : string)
    (font_size max_width : Q) :
  fst (_split_text_to_lines text font_name font_size max_width) <> [] /\
  In (hd "" (fst (_split_text_to_lines text font_name font_size max_width)))
     (fst (_split_text_to_lines text font_name font_size max_width)) /\
  snd (_split_text_to_lines text font_name font_size max_width) =
    [setFont font_name font_size].
Proof.
  unfold _split_text_to_lines. cbn [bind emit ret fst snd app].
  pose proof (split_lines_nonempty font_name font_size max_width text) as Hne.
  split; [exact Hne|]. split; [|reflexivity].
  destruct (split_lines font_name font_size max_width text);
    [congruence|left; reflexivity].
Qed.

Lemma join_nonempty (ws : list string) :
  Forall is_word ws -> ws <> [] -> join ws <> "".
Proof.
  intros Hws Hne. destruct ws as [|w ws']; [congruence|].
  inversion Hws as [|w0 ws0 [Hw _] _]; subst.
  destruct w as [|c w']; [congruence|].
  destruct ws'; cbn [join String.concat String.append]; discriminate.
Qed.

(** When every word fits on a line of its own, the word loop closes no
    empty line. *)
Lemma wrap_words_no_empty_line (font_name : string)
    (font_size max_width : Q) (words : list string) :
  forall cur lines,
    Forall is_word cur -> Forall is_word words ->
    Forall (fun w => stringWidth w font_name font_size <= max_width) words ->
    ~ In "" lines ->
    ~ In "" (snd (wrap_words font_name font_size max_width words cur lines)).
Proof.
  induction words as [|w words' IH]; intros cur lines Hcur Hwords Hfit Hno;
    simpl; [exact Hno|].
  inversion Hwords as [|w0 ws0 Hw Hwords']; subst.
  inversion Hfit as [|w1 ws1 Hwfit Hfit']; subst.
  destruct (Qle_bool _ max_width) eqn:E.
  - apply IH; try assumption.
    apply Forall_app. split; [exact Hcur|constructor; [exact Hw|constructor]].
  - apply IH; try assumption; [constructor; [exact Hw|constructor]|].
    intro Hin. apply in_app_or in Hin. destruct Hin as [Hin|[Hin|[]]].
    + exact (Hno Hin).
    + destruct cur as [|c0 cur'].
      * cbn [app join String.concat] in E.
        apply Qle_bool_iff in Hwfit. congruence.
      * apply (join_nonempty (c0 :: cur') Hcur); [discriminate|exact Hin].
Qed.

Lemma wrap_paragraph_no_empty_line (font_name : string)
    (font_size max_width : Q) (p : string) :
  p <> "" ->
  (forall w, In w (split p) -> stringWidth w font_name font_size <= max_width) ->
  ~ In "" (wrap_paragraph font_name font_size max_width [] p).
Proof.
  intros Hp Hfit. unfold wrap_paragraph.
  destruct p as [|c p']; [congruence|].
  pose proof (wrap_words_no_empty_line font_name font_size max_width
                (split (String c p')) [] [] (Forall_nil _)
                (split_words (String c p'))
                (proj2 (Forall_forall _ _) Hfit) (fun H => H)) as Hno.
  destruct (wrap_words_words font_name font_size max_width
              (split (String c p')) [] [] (Forall_nil _)
              (split_words (String c p'))) as [_ Hall].
  destruct (wrap_words _ _ _ _ _ _) as [cur' lines'].
  cbn [fst snd] in Hno, Hall.
  destruct cur' as [|w cur'']; [exact Hno|].
  intro Hin. apply in_app_or in Hin. destruct Hin as [Hin|[Hin|[]]].
  - exact (Hno Hin).
  - apply (join_nonempty (w :: cur'') Hall); [discriminate|exact Hin].
Qed.

(** X4. When every word of the text fits on a line of its own, every line
    that is not empty fits, and the empty lines are as many as the blank
    input lines: none is added for a paragraph that has words. *)
Theorem wrapper_fits_when_words_fit (font_name : string)
    (font_size max_width : Q) (text : string) :
  (forall p w, In p (paragraphs_of text) -> In w (split p) ->
               stringWidth w font_name font_size <= max_width) ->
  (forall line,
      In line (split_lines font_name font_size max_width text) ->
      line <> "" -> stringWidth line font_name font_size <= max_width) /\
  count_occ string_dec (split_lines font_name font_size max_width text) "" =
  count_occ string_dec (paragraphs_of text) "".
Proof.
  intro Hfit. split.
  - intros line Hin Hne.
    destruct (split_lines_wrapped font_name font_size max_width text line Hin)
      as (p & ws & a & b & Hp & Hsplit & Hline & [Hnil|[Hok|Hone]]).
    + exfalso. apply Hne. rewrite Hline, Hnil. reflexivity.
    + rewrite Hline. exact Hok.
    + destruct Hone as (w & Hws & Hwide). exfalso.
      apply (Qlt_not_le _ _ Hwide). apply (Hfit p w Hp).
      rewrite Hsplit, Hws. apply in_or_app. right. left. reflexivity.
  - rewrite split_lines_flat.
    assert (Hsub : forall p, In p (paragraphs_of text) ->
                             In p (paragraphs_of text)) by auto.
    revert Hsub. generalize (paragraphs_of text) at 1 3 4.
    intros ps Hsub. induction ps as [|p ps IH]; [reflexivity|].
    cbn [flat_map]. rewrite count_occ_app.
    rewrite IH by (intros q Hq; apply Hsub; right; exact Hq).
    destruct p as [|c p'].
    + reflexivity.
    + rewrite (proj1 (count_occ_not_In string_dec _ "")).
      * cbn [count_occ]. destruct (string_dec (String c p') ""); [congruence|].
        reflexivity.
      * apply wrap_paragraph_no_empty_line; [discriminate|].
        intros w Hw. apply (Hfit (String c p') w); [|exact Hw].
        apply Hsub. left. reflexivity.
Qed.

(** ** Columns and pages *)

Lemma count_pages_app (t1 t2 : list cmd) :
  count_pages (t1 ++ t2) = (count_pages t1 + count_pages t2)%nat.
Proof. unfold count_pages. rewrite filter_app, List.length_app. reflexivity. Qed.

Lemma count_pages_content (t : list cmd) :
  Forall content_cmd t -> count_pages t = 0%nat.
Proof.
  intro Hall. induction Hall as [|c t Hc _ IH]; [reflexivity|].
  unfold count_pages in *. destruct c; simpl in *; try exact IH. contradiction.
Qed.

Lemma draw_section_pages (sec : PosterSection)
    (area_x area_y area_w start_y : Q) (L : Layout) :
  count_pages (snd (_draw_section sec area_x area_y area_w start_y L)) = 0%nat.
Proof. apply count_pages_content, draw_section_content. Qed.

(** One step of the paginator, from a cursor on the grid: the cursor stays
    on the grid, at most one page is opened, and a page is opened only by
    leaving the last column. *)
Lemma place_section_grid (content : PosterContent) (W H : Q) (L : Layout)
    (left top area_y col_w gutter : Q) (st : cursor) (sec : PosterSection) :
  let r := place_section content W H L left top area_y col_w gutter st sec in
  (count_pages (snd r) <= 1)%nat /\
  ((0 < columns L)%Z -> cursor_in_grid L left col_w gutter st ->
   cursor_in_grid L left col_w gutter (fst r) /\
   (Z.of_nat (count_pages (snd r)) * columns L + cur_col (fst r)
    <= cur_col st + 1)%Z).
Proof.
  intro r. subst r.
  destruct (place_section_step content W H L left top area_y col_w gutter
              st sec) as [y1 t1 E1 _ | y1 t1 y2 t2 E1 _ Hcol E2
                         | y1 t1 y2 t2 E1 _ Hcol E2].
  - pose proof (draw_section_pages sec (cur_x st) area_y col_w (cur_y st) L) as H1.
    rewrite E1 in H1. cbn [snd] in H1. rewrite H1.
    split; [lia|]. intros Hpos [Hrange Hx]. cbn [cur_col cur_x].
    split; [split; assumption|lia].
  - pose proof (draw_section_pages sec (cur_x st) area_y col_w (cur_y st) L) as H1.
    pose proof (draw_section_pages sec
                  (left + inject_Z (cur_col st + 1) * (col_w + gutter))
                  area_y col_w top L) as H2.
    rewrite E1 in H1. rewrite E2 in H2. cbn [snd] in H1, H2.
    rewrite count_pages_app, H1, H2.
    split; [lia|]. intros Hpos [Hrange Hx]. cbn [cur_col cur_x].
    unfold cursor_in_grid. cbn [cur_col cur_x].
    split; [split; [lia|apply Qeq_refl]|lia].
  - pose proof (draw_section_pages sec (cur_x st) area_y col_w (cur_y st) L) as H1.
    pose proof (draw_section_pages sec
                  (left + inject_Z 0 * (col_w + gutter)) area_y col_w top L) as H2.
    rewrite E1 in H1. rewrite E2 in H2. cbn [snd] in H1, H2.
    rewrite count_pages_app, H1.
    change (showPage :: ?t) with ([showPage] ++ t).
    rewrite !count_pages_app, H2.
    rewrite (count_pages_content _ (background_content content W H)).
    rewrite (count_pages_content _ (draw_title_band_content content W H L)).
    cbn [count_pages filter is_showPage List.length Nat.add].
    split; [lia|]. intros Hpos [Hrange Hx].
    unfold cursor_in_grid. cbn [cur_col cur_x].
    split; [split; [lia|apply Qeq_refl]|lia].
Qed.

Lemma flow_sections_grid (content : PosterContent) (W H : Q) (L : Layout)
    (left top area_y col_w gutter : Q) (secs : list PosterSection) :
  forall st,
    let r := flow_sections content W H L left top area_y col_w gutter secs st in
    (count_pages (snd r) <= List.length secs)%nat /\
    ((0 < columns L)%Z -> cursor_in_grid L left col_w gutter st ->
     cursor_in_grid L left col_w gutter (fst r) /\
     (Z.of_nat (count_pages (snd r)) * columns L + cur_col (fst r)
      <= cur_col st + Z.of_nat (List.length secs))%Z).
Proof.
  induction secs as [|sec rest IH]; intro st; cbn zeta.
  - cbn [flow_sections ret fst snd count_pages filter List.length].
    split; [lia|]. intros _ Hst. split; [exact Hst|lia].
  - cbn [flow_sections]. unfold bind. cbn [fst snd List.length].
    destruct (place_section_grid content W H L left top area_y col_w gutter
                st sec) as [H1 H1'].
    destruct (IH (fst (place_section content W H L left top area_y col_w gutter
                         st sec))) as [H2 H2'].
    cbn zeta in H1, H1', H2, H2'.
    rewrite count_pages_app. split; [lia|].
    intros Hpos Hst.
    destruct (H1' Hpos Hst) as [Hgrid1 Hb1].
    destruct (H2' Hpos Hgrid1) as [Hgrid2 Hb2].
    split; [exact Hgrid2|]. nia.
Qed.

(** X5. With at least one column, the cursor of the paginator stays on the
    grid while the sections are placed: the column index is at least 0 and
    below the column count, and the horizontal position is the left edge
    of that column. *)
Theorem paginator_stays_on_the_grid (content : PosterContent) (W H : Q)
    (L : Layout) (left top area_y col_w gutter : Q)
    (secs : list PosterSection) :
  (0 < columns L)%Z ->
  cursor_in_grid L left col_w gutter
    (fst (flow_sections content W H L left top area_y col_w gutter secs
            {| cur_col := 0; cur_x := left; cur_y := top |})).
Proof.
  intro Hpos.
  apply (flow_sections_grid content W H L left top area_y col_w gutter secs
           {| cur_col := 0; cur_x := left; cur_y := top |}); [exact Hpos|].
  split; cbn [cur_col cur_x]; [lia|]. ring.
Qed.

Lemma footer_cmds_pages (content : PosterContent) (right bottom : Q) :
  count_pages (footer_cmds content right bottom) = 0%nat.
Proof.
  unfold footer_cmds. destruct (footer content) as [[|c f]|]; reflexivity.
Qed.

(** X6. A render opens at most one further page per section; with [c]
    columns, at least one, it opens at most [n / c] further pages for [n]
    sections. *)
Theorem pages_bounded_by_sections (data : PosterData) :
  (count_pages (snd (build_poster data)) <= List.length (d_sections data))%nat /\
  ((0 < columns (d_layout data))%Z ->
   (Z.of_nat (count_pages (snd (build_poster data))) * columns (d_layout data)
    <= Z.of_nat (List.length (d_sections data)))%Z).
Proof.
  unfold build_poster. destruct (d_title data) as [title_|].
  2: { cbn [ret snd count_pages filter List.length]. split; [lia|]. lia. }
  destruct (Z.eq_dec (columns (d_layout data)) 0) as [Hzero|Hnz].
  - rewrite (render_zero_columns (content_of data title_) Hzero). cbn [snd].
    rewrite count_pages_app.
    rewrite (count_pages_content _ (background_content _ _ _)).
    rewrite (count_pages_content _ (draw_title_band_content _ _ _ _)).
    split; lia.
  - rewrite (render_done (content_of data title_) Hnz). cbn [snd].
    rewrite !count_pages_app.
    rewrite (count_pages_content _ (background_content _ _ _)).
    rewrite (count_pages_content _ (draw_title_band_content _ _ _ _)).
    rewrite footer_cmds_pages.
    change (count_pages [save]) with 0%nat.
    match goal with
    | |- context [flow_sections ?c ?W ?H ?L ?l ?t ?a ?cw ?g ?secs ?st] =>
        destruct (flow_sections_grid c W H L l t a cw g secs st) as [Hn Hc]
    end.
    cbn zeta in Hn, Hc. cbn [content_of sections layout] in *.
    split; [lia|].
    intro Hpos. destruct (Hc Hpos) as [[Hrange _] Hbound].
    { split; cbn [cur_col cur_x]; [lia|ring]. }
    cbn [cur_col] in Hbound. nia.
Qed.

(** ** Outcome of a render *)

Lemma body_cmd_not_save (t : list cmd) : Forall body_cmd t -> ~ In save t.
Proof.
  intros Hall Hin. rewrite Forall_forall in Hall. exact (Hall _ Hin).
Qed.

Lemma footer_cmds_not_save (content : PosterContent) (right bottom : Q) :
  ~ In save (footer_cmds content right bottom).
Proof.
  unfold footer_cmds. destruct (footer content) as [[|c f]|]; simpl;
    intuition discriminate.
Qed.

(** X7. A render fails with [KeyError] when the document has no title,
    with [ZeroDivisionError] when it has a title and zero columns, and
    completes otherwise; it saves the document exactly when it completes,
    once, as its last command. *)
Theorem saved_exactly_when_complete (data : PosterData) :
  fst (build_poster data) =
    match d_title data with
    | None => Fail KeyError
    | Some _ =>
        if (columns (d_layout data) =? 0)%Z then Fail ZeroDivisionError
        else Done
    end /\
  (fst (build_poster data) = Done ->
   exists pre, snd (build_poster data) = pre ++ [save] /\ ~ In save pre) /\
  (forall e, fst (build_poster data) = Fail e ->
             ~ In save (snd (build_poster data))).
Proof.
  unfold build_poster. destruct (d_title data) as [title_|].
  2: { cbn [ret fst snd]. split; [reflexivity|].
       split; [discriminate|]. intros e _ []. }
  rewrite render_outcome. cbn [content_of layout].
  split; [reflexivity|].
  destruct (Z.eq_dec (columns (d_layout data)) 0) as [Hzero|Hnz].
  - rewrite (render_zero_columns (content_of data title_) Hzero).
    rewrite (proj2 (Z.eqb_eq _ _) Hzero). cbn [fst snd].
    split; [discriminate|]. intros e _. apply body_cmd_not_save.
    eapply Forall_impl; [apply content_cmd_body|].
    apply Forall_app. split;
      [apply background_content|apply draw_title_band_content].
  - rewrite (render_done (content_of data title_) Hnz).
    rewrite (proj2 (Z.eqb_neq _ _) Hnz). cbn [fst snd].
    split; [|discriminate]. intros _.
    match goal with
    | |- exists pre, ?a ++ ?b ++ ?c ++ ?d ++ [save] = _ /\ _ =>
        exists (a ++ b ++ c ++ d)
    end.
    split; [rewrite <- !app_assoc; reflexivity|].
    intro Hin.
    apply in_app_or in Hin. destruct Hin as [Hin|Hin].
    { revert Hin. apply body_cmd_not_save.
      eapply Forall_impl; [apply content_cmd_body|apply background_content]. }
    apply in_app_or in Hin. destruct Hin as [Hin|Hin].
    { revert Hin. apply body_cmd_not_save.
      eapply Forall_impl;
        [apply content_cmd_body|apply draw_title_band_content]. }
    apply in_app_or in Hin. destruct Hin as [Hin|Hin].
    { revert Hin. apply body_cmd_not_save. apply flow_sections_body. }
    revert Hin. apply footer_cmds_not_save.
Qed.

(** ** Order of the sections *)






(** ** The logo row *)

Lemma py_min_pos (a b : Q) : 0 < a -> 0 < b -> 0 < py_min a b.
Proof. intros Ha Hb. unfold py_min. destruct (Qlt_bool b a); assumption. Qed.


Lemma Qdiv_pos (a b : Q) : 0 < a -> 0 < b -> 0 < a / b.
Proof.
  intros Ha Hb. apply Qlt_shift_div_l; [exact Hb|].
  rewrite Qmult_0_l. exact Ha.
Qed.


Lemma images_drawn_app (t1 t2 : list cmd) :
  images_drawn (t1 ++ t2) = images_drawn t1 ++ images_drawn t2.
Proof. unfold images_drawn. apply flat_map_app. Qed.

Lemma logos_loop_images (y : Q) (logo_paths : list string) :
  forall x,
    images_drawn (snd (logos_loop y logo_paths x)) =
      filter (fun p => negb (logo_unreadable p)) logo_paths.
Proof.
  induction logo_paths as [|p rest IH]; intro x; cbn [logos_loop];
    [reflexivity|].
  unfold bind. cbn [snd filter]. rewrite images_drawn_app.
  unfold logo_try, logo_unreadable.
  destruct (ImageReader p) as [[iw ih]|].
  - destruct ((ih =? 0)%Z || (iw =? 0)%Z).
    + cbn [ret fst snd negb images_drawn flat_map app]. apply IH.
    + cbn [bind emit ret fst snd app negb images_drawn flat_map].
      f_equal. apply IH.
  - cbn [ret fst snd negb images_drawn flat_map app]. apply IH.
Qed.


(** ** Cursor of the section flow *)

(** X11. A section flow only sets fonts, sets the fill colour to black,
    and draws texts and images: it never opens a page, paints a rectangle,
    sets a stroke colour, draws right-aligned text or saves, and the theme
    has no part in it. *)
Theorem section_flow_commands (sec : PosterSection)
    (area_x area_y area_w start_y : Q) (L : Layout) :
  Forall flow_cmd (snd (_draw_section sec area_x area_y area_w start_y L)).
Proof.
  eapply Forall_impl; [|apply draw_section_cmds].
  intros c Hc. destruct c; simpl in *; try exact I; try exact Hc;
    try contradiction.
Qed.

(** X12. The body texts a section draws are the non-empty wrapped lines of
    the body, in order, up to the point where the cursor fell below the
    area bottom: overflow cuts the body short, it never skips or reorders
    a line; when the loop runs to its end every non-empty line is drawn. *)
Theorem body_lines_drawn_in_order (area_x area_y line_height : Q)
    (body_lines : list string) (y : Q) :
  exists rest,
    filter (fun line => negb (String.eqb line "")) body_lines =
      texts_drawn (snd (body_loop area_x area_y line_height body_lines y))
      ++ rest /\
    (forall y', fst (body_loop area_x area_y line_height body_lines y)
                = Next y' -> rest = []).
Proof.
  revert y.
  induction body_lines as [|line lines IH]; intro y; cbn [body_loop filter].
  - exists []. split; [reflexivity|auto].
  - destruct (Qlt_bool y area_y).
    + eexists. split; [reflexivity|]. intros y' Hnext. discriminate Hnext.
    + destruct (String.eqb line "") eqn:E; cbn [negb].
      * apply IH.
      * destruct (IH (y - line_height)) as [rest [Heq Hall]].
        exists rest. cbn [bind emit fst snd app]. split.
        -- unfold texts_drawn in *. cbn [flat_map app]. rewrite Heq.
           reflexivity.
        -- exact Hall.
Qed.









(** ** The light palette *)

Lemma place_section_pages_with (P : list cmd) (content : PosterContent)
    (W H : Q) (L : Layout) (left top area_y col_w gutter : Q) (st : cursor)
    (sec : PosterSection) (t' : list cmd) :
  (exists rest,
      snd (background content W H) ++ snd (_draw_title_band content W H L) =
        P ++ rest) ->
  pages_start_with P t' ->
  pages_start_with P
    (snd (place_section content W H L left top area_y col_w gutter st sec) ++ t').
Proof.
  intros [rest Hrest] Ht'.
  destruct (place_section_step content W H L left top area_y col_w gutter
              st sec) as [y1 t1 E1 _ | y1 t1 y2 t2 E1 _ _ E2
                         | y1 t1 y2 t2 E1 _ _ E2].
  - pose proof (draw_section_content sec (cur_x st) area_y col_w (cur_y st) L) as H1.
    rewrite E1 in H1.
    apply pages_start_skip; [apply content_cmd_no_showPage; exact H1|exact Ht'].
  - pose proof (draw_section_content sec (cur_x st) area_y col_w (cur_y st) L) as H1.
    pose proof (draw_section_content sec
                  (left + inject_Z (cur_col st + 1) * (col_w + gutter))
                  area_y col_w top L) as H2.
    rewrite E1 in H1. rewrite E2 in H2.
    apply pages_start_skip; [|exact Ht'].
    apply content_cmd_no_showPage. apply Forall_app. split; assumption.
  - pose proof (draw_section_content sec (cur_x st) area_y col_w (cur_y st) L) as H1.
    pose proof (draw_section_content sec
                  (left + inject_Z 0 * (col_w + gutter)) area_y col_w top L) as H2.
    rewrite E1 in H1. rewrite E2 in H2.
    cbn [snd] in H1, H2.
    rewrite <- app_assoc.
    apply pages_start_skip; [apply content_cmd_no_showPage; exact H1|].
    cbn [app pages_start_with]. split.
    + intros _. exists (rest ++ t2 ++ t').
      rewrite <- !app_assoc.
      rewrite (app_assoc (snd (background content W H))), Hrest.
      rewrite <- !app_assoc. reflexivity.
    + rewrite <- !app_assoc.
      apply pages_start_skip;
        [apply content_cmd_no_showPage; apply background_content|].
      apply pages_start_skip;
        [apply content_cmd_no_showPage; apply draw_title_band_content|].
      apply pages_start_skip; [apply content_cmd_no_showPage; exact H2|exact Ht'].
Qed.

Lemma flow_sections_pages_with (P : list cmd) (content : PosterContent)
    (W H : Q) (L : Layout) (left top area_y col_w gutter : Q)
    (secs : list PosterSection) (t' : list cmd) :
  (exists rest,
      snd (background content W H) ++ snd (_draw_title_band content W H L) =
        P ++ rest) ->
  pages_start_with P t' ->
  forall st,
    pages_start_with P
      (snd (flow_sections content W H L left top area_y col_w gutter secs st)
       ++ t').
Proof.
  intros Hshape Ht'. induction secs as [|sec rest IH]; intro st;
    cbn [flow_sections].
  - exact Ht'.
  - unfold bind. cbn [snd]. rewrite <- app_assoc.
    apply place_section_pages_with; [exact Hshape|apply IH].
Qed.

Lemma render_pages_with (P : list cmd) (content : PosterContent) :
  (exists rest,
      snd (background content (fst (page_mm content) * mm)
             (snd (page_mm content) * mm)) ++
      snd (_draw_title_band content (fst (page_mm content) * mm)
             (snd (page_mm content) * mm) (layout content)) =
        P ++ rest) ->
  (exists rest, snd (render content) = P ++ rest) /\
  pages_start_with P (snd (render content)).
Proof.
  intros Hshape. destruct Hshape as [rest Hrest].
  destruct (Z.eq_dec (columns (layout content)) 0) as [Hcol|Hcol].
  - rewrite (render_zero_columns content Hcol). cbn [snd].
    split; [exists rest; exact Hrest|].
    rewrite <- (app_nil_r (_ ++ _)), <- app_assoc.
    apply pages_start_skip;
      [apply content_cmd_no_showPage; apply background_content|].
    apply pages_start_skip;
      [apply content_cmd_no_showPage; apply draw_title_band_content|].
    exact I.
  - rewrite (render_done content Hcol). cbn [snd].
    split.
    + eexists. rewrite app_assoc, Hrest, <- app_assoc. reflexivity.
    + apply pages_start_skip;
        [apply content_cmd_no_showPage; apply background_content|].
      apply pages_start_skip;
        [apply content_cmd_no_showPage; apply draw_title_band_content|].
      apply flow_sections_pages_with; [exists rest; exact Hrest|].
      rewrite <- (app_nil_r (_ ++ [save])).
      apply pages_start_skip; [|exact I].
      apply Forall_app. split.
      * unfold footer_cmds. destruct (footer content) as [[|c f]|];
          repeat (constructor; [discriminate|]); constructor.
      * constructor; [discriminate|constructor].
Qed.

(** X14. A document whose theme is the string "light", or which has no
    theme key, is rendered in the light palette: the first page and every
    page opened later start with the white background, the white smoke
    band and black as the colour of the band text. *)
Theorem light_theme_is_light (data : PosterData) (title_ : string) :
  d_title data = Some title_ ->
  d_theme data = None \/ d_theme data = Some (Some "light") ->
  (exists rest,
      snd (build_poster data) =
        light_page_start (page_W data) (page_H data) (d_layout data) ++ rest) /\
  pages_start_with
    (light_page_start (page_W data) (page_H data) (d_layout data))
    (snd (build_poster data)).
Proof.
  intros Htitle Htheme.
  assert (Hth : is_light (theme (content_of data title_)) = true).
  { cbn [content_of theme]. destruct Htheme as [-> | ->]; reflexivity. }
  unfold build_poster. rewrite Htitle.
  apply (render_pages_with
           (light_page_start (page_W data) (page_H data) (d_layout data))
           (content_of data title_)).
  unfold background, _draw_title_band. rewrite Hth.
  eexists. cbn [content_of page_mm layout]. simpl. reflexivity.
Qed.

(** ** Title size and band width *)

(** X15. The title size grows with the room: for the same title, a band
    that allows a larger width never gets a smaller title size. *)
Theorem wider_band_never_smaller_title (text : string) (mw1 mw2 : Q) :
  mw1 <= mw2 ->
  (shrink text mw1 72 <= shrink text mw2 72)%Z.
Proof.
  intro Hle.
  destruct (shrink_spec text mw1 72)
    as (Hle1 & Hge1 & (k1 & Hk1 & Hs1) & _ & Hstop1).
  destruct (shrink_spec text mw2 72)
    as (Hle2 & Hge2 & (k2 & Hk2 & Hs2) & Hpassed2 & _).
  destruct (Z_le_gt_dec (shrink text mw1 72) (shrink text mw2 72))
    as [Hok|Hgt]; [exact Hok|exfalso].
  assert (Hnot2 : ~ title_fits text mw2 (shrink text mw1 72)).
  { rewrite Hs1. apply Hpassed2; lia. }
  destruct Hstop1 as [Hfit1|Hfloor].
  - apply Hnot2. unfold title_fits in *. lra.
  - lia.
Qed.

(** ** Greedy filling of the lines *)

Lemma greedy_lines_snoc (font_name : string) (font_size max_width : Q)
    (lines : list string) (l' : string) :
  greedy_lines font_name font_size max_width lines ->
  (forall pre l, lines = pre ++ [l] ->
                 next_word_did_not_fit font_name font_size max_width l l') ->
  greedy_lines font_name font_size max_width (lines ++ [l']).
Proof.
  induction lines as [|l1 rest IH]; intros Hgreedy Hlast.
  - cbn. auto.
  - cbn [app greedy_lines] in *. destruct Hgreedy as [Hadj Hrest].
    split.
    + destruct rest as [|l2 rest']; cbn [app].
      * apply (Hlast [] l1). reflexivity.
      * exact Hadj.
    + apply IH; [exact Hrest|].
      intros pre l Heq. apply (Hlast (l1 :: pre) l). rewrite Heq. reflexivity.
Qed.

(** The invariant of the word loop for greedy filling: the closed lines
    are greedy, and the first word of the open line did not fit on the
    last closed line. *)
Lemma wrap_words_greedy (font_name : string) (font_size max_width : Q)
    (words : list string) :
  forall cur lines,
    Forall is_word words -> Forall is_word cur ->
    greedy_lines font_name font_size max_width lines ->
    (cur = [] -> lines = []) ->
    (forall pre l c0 cs,
        lines = pre ++ [l] -> cur = c0 :: cs ->
        max_width < stringWidth (join (split l ++ [c0])) font_name font_size) ->
    let r := wrap_words font_name font_size max_width words cur lines in
    Forall is_word (fst r) /\
    greedy_lines font_name font_size max_width (snd r) /\
    (fst r = [] -> snd r = []) /\
    (forall pre l c0 cs,
        snd r = pre ++ [l] -> fst r = c0 :: cs ->
        max_width < stringWidth (join (split l ++ [c0])) font_name font_size).
Proof.
  induction words as [|w words' IH];
    intros cur lines Hwords Hcur Hgreedy Hnil Hlast; cbn zeta.
  - cbn [wrap_words fst snd]. auto.
  - inversion Hwords as [|w0 ws0 Hw Hwords']; subst.
    cbn [wrap_words]. destruct (Qle_bool _ max_width) eqn:E.
    + apply IH; try assumption.
      * apply Forall_app. split; [exact Hcur|constructor; [exact Hw|constructor]].
      * intro Hc. destruct cur; discriminate Hc.
      * intros pre l c0 cs Hlines Hc.
        destruct cur as [|c1 cur'].
        -- rewrite (Hnil eq_refl) in Hlines. destruct pre; discriminate Hlines.
        -- cbn [app] in Hc. injection Hc as <- _.
           apply (Hlast pre l c1 cur' Hlines eq_refl).
    + apply IH; try assumption.
      * constructor; [exact Hw|constructor].
      * apply greedy_lines_snoc; [exact Hgreedy|].
        intros pre l Hlines w1 ws1 Hsplit.
        rewrite (split_join cur Hcur) in Hsplit.
        apply (Hlast pre l w1 ws1 Hlines Hsplit).
      * discriminate.
      * intros pre l c0 cs Hlines Hc.
        apply app_inj_tail in Hlines. destruct Hlines as [_ <-].
        injection Hc as <- _.
        rewrite (split_join cur Hcur).
        apply Qnot_le_lt. intro Hfit. apply Qle_bool_iff in Hfit. congruence.
Qed.

(** X16. The lines of a paragraph are filled greedily: each line but the
    last is as long as it can be, the first word of the next line would
    have made it wider than [max_width].  The lines of a text are the lines
    of its paragraphs, one paragraph after the other. *)
Theorem paragraph_lines_are_greedy (font_name : string)
    (font_size max_width : Q) (text p : string) :
  greedy_lines font_name font_size max_width
    (wrap_paragraph font_name font_size max_width [] p) /\
  split_lines font_name font_size max_width text =
    flat_map (wrap_paragraph font_name font_size max_width [])
      (paragraphs_of text).
Proof.
  split; [|apply split_lines_flat].
  unfold wrap_paragraph. destruct p as [|c p']; [cbn; auto|].
  pose proof (wrap_words_greedy font_name font_size max_width
                (split (String c p')) [] [] (split_words _) (Forall_nil _) I
                (fun _ => eq_refl)) as Hinv.
  cbn zeta in Hinv.
  destruct Hinv as (Hcur & Hgreedy & Hnil & Hlast).
  { intros pre l c0 cs Hlines. destruct pre; discriminate Hlines. }
  destruct (wrap_words font_name font_size max_width (split (String c p')) [] [])
    as [cur' lines'].
  cbn [fst snd] in *.
  destruct cur' as [|c0 cs]; [exact Hgreedy|].
  apply greedy_lines_snoc; [exact Hgreedy|].
  intros pre l Hlines w1 ws1 Hsplit.
  rewrite (split_join (c0 :: cs) Hcur) in Hsplit. injection Hsplit as <- _.
  apply (Hlast pre l c0 cs Hlines eq_refl).
Qed.

(** ** Texts of the title band *)

Lemma logos_loop_no_text (y : Q) (logo_paths : list string) :
  forall x, texts_drawn (snd (logos_loop y logo_paths x)) = [].
Proof.
  induction logo_paths as [|p rest IH]; intro x; cbn [logos_loop];
    [reflexivity|].
  unfold bind. cbn [snd]. unfold texts_drawn. rewrite flat_map_app.
  fold (texts_drawn (snd (logo_try x y p))).
  assert (Htry : texts_drawn (snd (logo_try x y p)) = []).
  { unfold logo_try. destruct (ImageReader p) as [[iw ih]|]; [|reflexivity].
    destruct ((ih =? 0)%Z || (iw =? 0)%Z); reflexivity. }
  rewrite Htry. cbn [app].
  destruct (fst (logo_try x y p)); apply IH.
Qed.

(** X17. The title band draws, in this order, the title, the subtitle
    when there is one, the authors and the affiliations when there are
    some, and no other text; an empty subtitle or an empty affiliation
    string is left out like a missing one, while the authors are drawn
    even when empty. *)
Theorem title_band_texts (content : PosterContent) (W H : Q) (L : Layout) :
  texts_drawn (snd (_draw_title_band content W H L)) =
    [title content]
    ++ match subtitle content with
       | Some (String c s) => [String c s]
       | _ => []
       end
    ++ [authors content]
    ++ match affiliations content with
       | Some (String c s) => [String c s]
       | _ => []
       end.
Proof.
  unfold _draw_title_band.
  cbn [bind emit ret fst snd app].
  unfold texts_drawn. cbn [flat_map app].
  rewrite !flat_map_app. cbn [flat_map app]. rewrite !flat_map_app.
  pose proof (logos_loop_no_text (H - (titleband_mm L - 20) * mm)
                (logos content) (W - margins_mm L * mm)) as Hlogos.
  unfold texts_drawn in Hlogos. rewrite Hlogos, app_nil_r.
  destruct (subtitle content) as [[|c s]|], (affiliations content) as [[|c' s']|];
    reflexivity.
Qed.

(** ** Footer and images *)

(** X18. A document without a footer, or with an empty footer string,
    gets no right-aligned text at all, whatever else it holds and however
    the render ends. *)
Theorem no_footer_no_right_text (data : PosterData) :
  d_footer data = None \/ d_footer data = Some "" ->
  forall x y text, ~ In (drawRightString x y text) (snd (build_poster data)).
Proof.
  intros Hfooter x y text.
  assert (Hbody : forall t, Forall body_cmd t -> ~ In (drawRightString x y text) t).
  { intros t Hall Hin. rewrite Forall_forall in Hall. exact (Hall _ Hin). }
  unfold build_poster. destruct (d_title data) as [title_|]; [|intros []].
  destruct (Z.eq_dec (columns (d_layout data)) 0) as [Hzero|Hnz].
  - rewrite (render_zero_columns (content_of data title_) Hzero). cbn [snd].
    apply Hbody. eapply Forall_impl; [apply content_cmd_body|].
    apply Forall_app. split;
      [apply background_content|apply draw_title_band_content].
  - rewrite (render_done (content_of data title_) Hnz). cbn [snd].
    assert (Hnone : footer_cmds (content_of data title_)
                      (fst (page_mm (content_of data title_)) * mm
                       - margins_mm (layout (content_of data title_)) * mm)
                      (margins_mm (layout (content_of data title_)) * mm) = []).
    { unfold footer_cmds. cbn [content_of footer].
      destruct Hfooter as [-> | ->]; reflexivity. }
    rewrite Hnone. cbn [app].
    intro Hin.
    apply in_app_or in Hin. destruct Hin as [Hin|Hin].
    { revert Hin. apply Hbody.
      eapply Forall_impl; [apply content_cmd_body|apply background_content]. }
    apply in_app_or in Hin. destruct Hin as [Hin|Hin].
    { revert Hin. apply Hbody.
      eapply Forall_impl;
        [apply content_cmd_body|apply draw_title_band_content]. }
    apply in_app_or in Hin. destruct Hin as [Hin|[Hin|[]]].
    { revert Hin. apply Hbody. apply flow_sections_body. }
    discriminate Hin.
Qed.

(** What the [try] body draws for a readable image: nothing when it
    returns, the image when it goes on. *)
Lemma image_try_drawn (L : Layout) (area_x area_y area_w : Q)
    (path caption : string) (y : Q) :
  match fst (image_try L area_x area_y area_w path caption y) with
  | Ok (Next _) =>
      images_drawn (snd (image_try L area_x area_y area_w path caption y))
        = [path]
  | _ =>
      images_drawn (snd (image_try L area_x area_y area_w path caption y))
        = []
  end.
Proof.
  unfold image_try.
  destruct (ImageReader path) as [[iw ih]|]; [|reflexivity].
  destruct ((iw =? 0)%Z || (ih =? 0)%Z); [reflexivity|].
  destruct (Qlt_bool _ area_y); [reflexivity|].
  destruct caption; reflexivity.
Qed.

Lemma image_try_raised (L : Layout) (area_x area_y area_w : Q)
    (c : ascii) (p caption : string) (y : Q) (img_spec : ImageSpec) :
  img_path img_spec = Some (String c p) ->
  path_exists (String c p) = true ->
  (fst (image_try L area_x area_y area_w (String c p) caption y) = Raised
   <-> image_unreadable img_spec = true).
Proof.
  intros Hpath Hex. unfold image_unreadable, image_try.
  rewrite Hpath, Hex. cbn [negb orb].
  destruct (ImageReader (String c p)) as [[iw ih]|].
  - destruct ((iw =? 0)%Z || (ih =? 0)%Z).
    + split; reflexivity.
    + split; [|discriminate].
      destruct (Qlt_bool _ area_y); [discriminate|].
      destruct caption; discriminate.
  - split; reflexivity.
Qed.

(** When the [try] body returns, it returns the cursor it was given, and
    the image it read did not fit under that cursor. *)
Lemma image_try_return (L : Layout) (area_x area_y area_w : Q)
    (path caption : string) (y y' : Q) :
  fst (image_try L area_x area_y area_w path caption y) = Ok (Return y') ->
  y' = y /\
  exists iw ih,
    ImageReader path = Some (iw, ih) /\
    y - inject_Z ih * py_min (area_w / inject_Z iw) (4000 / inject_Z ih) - 24
      < area_y.
Proof.
  unfold image_try.
  destruct (ImageReader path) as [[iw ih]|]; [|discriminate].
  destruct ((iw =? 0)%Z || (ih =? 0)%Z); [discriminate|].
  destruct (Qlt_bool _ area_y) eqn:Hfit.
  - cbn [ret fst]. intro Hret. injection Hret as <-.
    split; [reflexivity|].
    exists iw, ih. split; [reflexivity|].
    apply Qlt_bool_iff. exact Hfit.
  - destruct caption; discriminate.
Qed.

(** X19. The images a section draws are the readable images of its list,
    in order, up to the point where the loop returned: the drawn paths
    followed by the paths left out are the readable paths of the list, an
    unreadable image is passed over, and when a readable image was left
    out, the cursor the loop returns is under the area bottom, or the
    first image left out, scaled as the code scales it, does not fit
    between that cursor and the area bottom with 24 units to spare. *)
Theorem images_drawn_in_order (L : Layout) (area_x area_y area_w : Q)
    (images : list ImageSpec) (y : Q) :
  exists rest,
    map path_of (filter (fun i => negb (image_unreadable i)) images) =
      images_drawn (snd (images_loop L area_x area_y area_w images y)) ++ rest
    /\
    forall p rest', rest = p :: rest' ->
      fst (images_loop L area_x area_y area_w images y) < area_y \/
      exists iw ih,
        ImageReader p = Some (iw, ih) /\
        fst (images_loop L area_x area_y area_w images y)
          - inject_Z ih * py_min (area_w / inject_Z iw) (4000 / inject_Z ih)
          - 24 < area_y.
Proof.
  revert y. induction images as [|img_spec more IH]; intro y;
    cbn [images_loop filter].
  - exists []. split; [reflexivity|discriminate].
  - destruct (Qlt_bool y area_y) eqn:Hlow.
    { eexists. split; [reflexivity|].
      intros p rest' _. left. cbn [ret fst].
      apply Qlt_bool_iff. exact Hlow. }
    destruct (img_path img_spec) as [[|c p]|] eqn:Hpath.
    + assert (Hbad : image_unreadable img_spec = true)
        by (unfold image_unreadable; rewrite Hpath; reflexivity).
      rewrite Hbad. cbn [negb]. apply IH.
    + destruct (path_exists (String c p)) eqn:Hex.
      * unfold bind. cbn [fst snd]. rewrite images_drawn_app.
        pose proof (image_try_drawn L area_x area_y area_w (String c p)
                      (img_caption img_spec) y) as Hdrawn.
        pose proof (image_try_raised L area_x area_y area_w c p
                      (img_caption img_spec) y img_spec Hpath Hex) as Hraised.
        pose proof (image_try_return L area_x area_y area_w (String c p)
                      (img_caption img_spec) y) as Hreturn.
        destruct (fst (image_try L area_x area_y area_w (String c p)
                         (img_caption img_spec) y)) as [[y'|y']|].
        -- assert (Hgood : image_unreadable img_spec = false).
           { destruct (image_unreadable img_spec); [|reflexivity].
             destruct Hraised as [_ Hr]. discriminate (Hr eq_refl). }
           rewrite Hgood, Hdrawn. cbn [negb map app].
           destruct (IH y') as [rest [Hrest Hcut]].
           exists rest. split; [|exact Hcut].
           unfold path_of at 1. rewrite Hpath, Hrest. reflexivity.
        -- assert (Hgood : image_unreadable img_spec = false).
           { destruct (image_unreadable img_spec); [|reflexivity].
             destruct Hraised as [_ Hr]. discriminate (Hr eq_refl). }
           destruct (Hreturn y' eq_refl) as [-> [iw [ih [Hrd Hfit]]]].
           rewrite Hgood, Hdrawn. cbn [negb map ret fst snd images_drawn
                                         flat_map app].
           eexists. split; [reflexivity|].
           intros q rest' Hq. injection Hq as <- _. right.
           unfold path_of. rewrite Hpath.
           exists iw, ih. split; assumption.
        -- rewrite (proj1 Hraised eq_refl), Hdrawn. cbn [negb app]. apply IH.
      * assert (Hbad : image_unreadable img_spec = true)
          by (unfold image_unreadable; rewrite Hpath, Hex; reflexivity).
        rewrite Hbad. cbn [negb]. apply IH.
    + assert (Hbad : image_unreadable img_spec = true)
        by (unfold image_unreadable; rewrite Hpath; reflexivity).
      rewrite Hbad. cbn [negb]. apply IH.
Qed.

(** * The paginator against its rule *)

(** A new page, as the program paints it, is a page painted as the
    specification asks. *)
Lemma new_page_as_painted (content : PosterContent) (W H : Q) (L : Layout) :
  new_page_painted content W H L
    (showPage
       :: snd (background content W H)
       ++ snd (_draw_title_band content W H L)).
Proof.
  unfold new_page_painted, background, _draw_title_band.
  cbn [bind emit ret fst snd app].
  eexists. split; [reflexivity|].
  split; [|split].
  - unfold texts_drawn. rewrite !flat_map_app. cbn [flat_map app].
    rewrite !flat_map_app.
    pose proof (logos_loop_no_text (H - (titleband_mm L - 20) * mm)
                  (logos content) (W - margins_mm L * mm)) as Hlogos.
    unfold texts_drawn in Hlogos. rewrite Hlogos, app_nil_r.
    destruct (subtitle content) as [[|c s]|],
             (affiliations content) as [[|c' s']|]; reflexivity.
  - rewrite images_drawn_app.
    change (setFont "Helvetica" 26 :: ?a :: ?t) with ([setFont "Helvetica" 26; a] ++ t).
    rewrite !images_drawn_app, logos_loop_images.
    destruct (subtitle content) as [[|c s]|],
             (affiliations content) as [[|c' s']|]; reflexivity.
  - apply Forall_app. split.
    { destruct (subtitle content) as [[|c s]|]; cbn [bind emit ret fst snd app];
        repeat constructor. }
    constructor; [exact I|]. constructor; [exact I|].
    apply Forall_app. split.
    { destruct (affiliations content) as [[|c s]|];
        cbn [bind emit ret fst snd app]; repeat constructor. }
    eapply Forall_impl; [apply band_cmd_content|apply logos_loop_cmds].
Qed.

Lemma place_section_rule (content : PosterContent) (W H : Q) (L : Layout)
    (left top area_y col_w gutter : Q) (st : cursor) (sec : PosterSection) :
  paginator_rule content W H L left top area_y col_w gutter st sec
    (fst (place_section content W H L left top area_y col_w gutter st sec))
    (snd (place_section content W H L left top area_y col_w gutter st sec)).
Proof.
  destruct (place_section_step content W H L left top area_y col_w gutter
              st sec) as [y1 t1 E1 Hge | y1 t1 y2 t2 E1 Hlt Hcol E2
                         | y1 t1 y2 t2 E1 Hlt Hcol E2].
  - apply rule_placed; assumption.
  - eapply rule_next_column; eassumption.
  - change (t1 ++ showPage :: snd (background content W H)
               ++ snd (_draw_title_band content W H L) ++ t2)
      with (t1 ++ (showPage :: snd (background content W H)
                      ++ snd (_draw_title_band content W H L) ++ t2)).
    replace (showPage :: snd (background content W H)
               ++ snd (_draw_title_band content W H L) ++ t2)
      with ((showPage :: snd (background content W H)
               ++ snd (_draw_title_band content W H L)) ++ t2)
      by (cbn [app]; rewrite <- app_assoc; reflexivity).
    eapply rule_new_page; try eassumption.
    apply new_page_as_painted.
Qed.

(** C1. After any list [secs] of sections, placing the next section [sec]
    follows the transition rule of the paginator: the section is flowed at
    the cursor; exactly when the returned cursor is below the area bottom
    plus 60 the column index moves on; when it reaches the column count a
    new page is opened, its background and title band are painted and the
    index is reset to 0; the cursor goes back to the column top and the
    same section is flowed once more; the next section starts in that
    column at the last returned cursor minus 18. *)
Theorem paginator_transition (content : PosterContent) (W H : Q) (L : Layout)
    (left top area_y col_w gutter : Q) (secs : list PosterSection)
    (sec : PosterSection) (st0 : cursor) :
  let before :=
    flow_sections content W H L left top area_y col_w gutter secs st0 in
  let st := fst before in
  let first := _draw_section sec (cur_x st) area_y col_w (cur_y st) L in
  exists st' t,
    flow_sections content W H L left top area_y col_w gutter (secs ++ [sec]) st0
      = (st', snd before ++ t) /\
    paginator_rule content W H L left top area_y col_w gutter st sec st' t /\
    (fst first < area_y + 60 <-> t <> snd first).
Proof.
  intros before st first.
  pose proof (place_section_rule content W H L left top area_y col_w gutter
                st sec) as Hrule.
  exists (fst (place_section content W H L left top area_y col_w gutter st sec)).
  exists (snd (place_section content W H L left top area_y col_w gutter st sec)).
  split.
  { rewrite flow_sections_app. unfold bind. cbv zeta.
    rewrite flow_sections_one. reflexivity. }
  split; [exact Hrule|].
  remember (fst (place_section content W H L left top area_y col_w gutter st sec))
    as st' eqn:Est.
  remember (snd (place_section content W H L left top area_y col_w gutter st sec))
    as t eqn:Et.
  clear Est Et.
  destruct Hrule as [y1 t1 E1 Hge | y1 t1 y2 t2 E1 Hlt Hcol E2
                    | y1 t1 y2 t2 page E1 Hlt Hcol Hpage E2];
    unfold first; rewrite E1; cbn [fst snd].
  - split; [intro Hlt; contradiction|intro Hne; congruence].
  - split; [intros _|intros _; exact Hlt].
    apply app_longer_neq.
    destruct (draw_section_starts sec
                (left + inject_Z (cur_col st + 1) * (col_w + gutter))
                area_y col_w top L) as [rest Hrest].
    rewrite E2 in Hrest. cbn [snd] in Hrest. rewrite Hrest. discriminate.
  - split; [intros _|intros _; exact Hlt].
    apply app_longer_neq.
    destruct Hpage as (band_rest & -> & _). discriminate.
Qed.

(** * The size of the drawn images *)










End Engine.

(** * The program on the sample documents *)

Lemma section_flow_checks_area_bottom_witness :
  body_loop 0 10 (body_size default_Layout * (5 # 4)) ["line"] 5
    = (Return 5, []).
Proof.
  apply (proj1 (section_flow_checks_area_bottom mono_width sample_exists
                  sample_reader figure_section 0 10 400 1000 default_Layout)).
  reflexivity.
Defined.

Lemma overwide_first_word_adds_empty_line_witness :
  split_lines mono_width "Helvetica" 10 20 "abcdefgh" = [""; "abcdefgh"].
Proof.
  apply (proj2 (overwide_first_word_adds_empty_line mono_width
                  "Helvetica" 10 20 "abcdefgh" "abcdefgh" "abcdefgh" []
                  eq_refl eq_refl eq_refl)).
  reflexivity.
Defined.

Lemma wrapped_lines_fit_witness :
  "ab" = "" \/
  line_bound_as_specified mono_width "Helvetica" 10 20 "ab cd" "ab".
Proof.
  apply (proj2 (wrapped_lines_fit mono_width "Helvetica" 10 20 "ab cd" "ab"
                  (or_introl eq_refl))).
Defined.

(** On an empty text with a negative [max_width] the wrapper returns one
    empty line, which measures 0: it is wider than [max_width] and it is
    not a word of the text. *)
Lemma empty_line_exceeds_negative_width :
  ~ (forall line,
        In line (split_lines mono_width "Helvetica" 28 (-1) "") ->
        line_bound_as_specified mono_width "Helvetica" 28 (-1) "" line).
Proof.
  intro Hclaim.
  destruct (Hclaim "" (or_introl eq_refl)) as [Hfit|[(p & Hp & Hword) _]].
  - revert Hfit. vm_compute. intro Hfit. apply Hfit. reflexivity.
  - destruct Hp as [Hp|[]]. subst p. exact Hword.
Defined.

Lemma config_errors_as_handled_witness :
  build_poster mono_width sample_exists sample_reader untitled_data
    = (Fail KeyError, []) /\
  fst (build_poster mono_width sample_exists sample_reader narrow_data) = Done.
Proof.
  split.
  - apply (proj1 (config_errors_as_handled mono_width sample_exists
                    sample_reader untitled_data)).
    reflexivity.
  - apply (proj2 (config_errors_as_handled mono_width sample_exists
                    sample_reader narrow_data) "Poster").
    + reflexivity.
    + discriminate.
Defined.

(** The narrow page has a negative column width, yet its render completes
    and draws. *)
Lemma narrow_page_renders :
  ~ (config_error narrow_data ->
     fails_before_drawing mono_width sample_exists sample_reader narrow_data).
Proof.
  intro Hclaim.
  assert (Herr : config_error narrow_data).
  { right. vm_compute. discriminate. }
  destruct (Hclaim Herr) as [e He].
  apply (f_equal fst) in He.
  vm_compute in He. discriminate He.
Defined.

Lemma footer_once_on_last_page_witness :
  exists pre,
    build_poster mono_width sample_exists sample_reader footer_data =
      (Done,
       pre ++ [setFont "Helvetica" 20; setFillColor black;
               drawRightString (1800 * mm - 25 * mm) (25 * mm - 10) "Contact";
               save]).
Proof.
  destruct (footer_once_on_last_page mono_width sample_exists sample_reader
              footer_data "Poster" "Contact" eq_refl eq_refl)
    as [pre [Hrender _]].
  - discriminate.
  - discriminate.
  - exists pre. exact Hrender.
Defined.

(** The footer of the sample document is drawn 10 units under the bottom
    margin line, not above it. *)
Lemma footer_below_bottom_margin :
  ~ footer_above_bottom_margin mono_width sample_exists sample_reader
      footer_data "Contact".
Proof.
  intros (x & y & Hin & Habove).
  destruct (render_footer mono_width sample_exists sample_reader
              (content_of footer_data "Poster") "Contact" eq_refl)
    as [pre [Hrender Hpre]]; [discriminate|discriminate|].
  change (build_poster mono_width sample_exists sample_reader footer_data)
    with (render mono_width sample_exists sample_reader
            (content_of footer_data "Poster")) in Hin.
  rewrite Hrender in Hin. cbn [snd] in Hin.
  apply in_app_or in Hin. destruct Hin as [Hin|Hin].
  - rewrite Forall_forall in Hpre. exact (Hpre _ Hin).
  - destruct Hin as [Hin|[Hin|[Hin|[Hin|[]]]]]; try discriminate Hin.
    injection Hin as _ Hy. subst y.
    revert Habove. vm_compute. discriminate.
Defined.

Lemma unreadable_images_are_skipped_witness :
  images_loop sample_exists sample_reader default_Layout 0 0 400
    ([] ++ missing_image :: []) 900
  = images_loop sample_exists sample_reader default_Layout 0 0 400
      ([] ++ []) 900.
Proof.
  apply (proj1 (unreadable_images_are_skipped mono_width sample_exists
                  sample_reader)).
  reflexivity.
Defined.

Lemma non_light_theme_is_dark_witness :
  pages_start_with
    (dark_page_start (page_W capital_theme_data) (page_H capital_theme_data)
       default_Layout)
    (snd (build_poster mono_width sample_exists sample_reader
            capital_theme_data)).
Proof.
  apply (non_light_theme_is_dark mono_width sample_exists sample_reader
           capital_theme_data "Poster" (Some "Light") eq_refl eq_refl).
  discriminate.
Defined.


Lemma wrapper_fits_when_words_fit_witness :
  count_occ string_dec (split_lines mono_width "Helvetica" 10 20 "ab cd") "" =
  count_occ string_dec (paragraphs_of "ab cd") "".
Proof.
  apply (wrapper_fits_when_words_fit mono_width "Helvetica" 10 20 "ab cd").
  intros p w Hp Hw.
  destruct Hp as [<-|[]].
  destruct Hw as [<-|[<-|[]]]; vm_compute; discriminate.
Defined.

Lemma paginator_stays_on_the_grid_witness :
  cursor_in_grid default_Layout 70 500 45
    (fst (flow_sections mono_width sample_exists sample_reader
            (content_of two_section_data "Poster") 5000 3400 default_Layout
            70 3000 70 500 45 [text_section; figure_section]
            {| cur_col := 0; cur_x := 70; cur_y := 3000 |})).
Proof.
  apply (paginator_stays_on_the_grid mono_width sample_exists sample_reader).
  reflexivity.
Defined.

Lemma pages_bounded_by_sections_witness :
  (Z.of_nat (count_pages
               (snd (build_poster mono_width sample_exists sample_reader
                       two_section_data)))
   * columns (d_layout two_section_data)
   <= Z.of_nat (List.length (d_sections two_section_data)))%Z.
Proof.
  apply (proj2 (pages_bounded_by_sections mono_width sample_exists
                  sample_reader two_section_data)).
  reflexivity.
Defined.

Lemma saved_exactly_when_complete_witness :
  exists pre,
    snd (build_poster mono_width sample_exists sample_reader two_section_data)
      = pre ++ [save] /\ ~ In save pre.
Proof.
  apply (proj1 (proj2 (saved_exactly_when_complete mono_width sample_exists
                         sample_reader two_section_data))).
  apply (proj1 (saved_exactly_when_complete mono_width sample_exists
                  sample_reader two_section_data)).
Defined.



Lemma light_theme_is_light_witness :
  pages_start_with
    (light_page_start (page_W sample_data) (page_H sample_data) default_Layout)
    (snd (build_poster mono_width sample_exists sample_reader sample_data)).
Proof.
  apply (light_theme_is_light mono_width sample_exists sample_reader
           sample_data "Poster" eq_refl (or_introl eq_refl)).
Defined.

Lemma wider_band_never_smaller_title_witness :
  (shrink mono_width "A long poster title" 500 72
   <= shrink mono_width "A long poster title" 700 72)%Z.
Proof.
  apply (wider_band_never_smaller_title mono_width).
  vm_compute. discriminate.
Defined.

Lemma no_footer_no_right_text_witness :
  ~ In (drawRightString 0 0 "Contact")
       (snd (build_poster mono_width sample_exists sample_reader
               two_section_data)).
Proof.
  apply (no_footer_no_right_text mono_width sample_exists sample_reader
           two_section_data (or_introl eq_refl)).
Defined.


